(** * SSO connector library of the core package

    A shallow embedding of [packages/core/src/libraries/sso-connector.ts]
    ([createSsoConnectorLibrary]) and the properties of its seven operations.

    The library is a closure over the tenant's [queries]; every operation is an
    [async] function that awaits repository calls.  The embedding keeps that
    shape: an operation is a finite tree of collaborator calls ([prog]), and
    its meaning is given by running the tree against an arbitrary handler that
    answers the calls ([exec]).  Theorems quantify over all handlers, and read
    off the result, the final state of the collaborator and the calls made.

    What the operations import and the sources do not contain is either a
    parameter of the library (the connector registry, the default session
    TTL, the reserved scopes, the parsing of dates and of URLs) or modelled
    from the specification and marked so ([isSupportedSsoConnector],
    [withReservedScopes], the names of the query keys, [ApplicationType] and
    [SsoSamlAssertionContent]). *)

From Stdlib Require Import ZArith String Ascii List Lia Bool.
From stdpp Require Import base option list strings gmap sorting.

Local Open Scope string_scope.
Local Open Scope Z_scope.
Local Open Scope list_scope.

(** ** Errors *)

(** [new RequestError({ code, status })] and [new RequestError(code)]: the
    record keeps the constructor's arguments ([status] is [None] when the code
    alone is given). *)
Record RequestError := mkRequestError {
  code : string;
  status : option Z;
}.

(** Everything that can be thrown while an operation runs. *)
Inductive Thrown :=
| Request (e : RequestError)      (* a [RequestError], ours or a collaborator's *)
| TypeError (message : string)    (* raised by the JavaScript runtime *)
| Foreign (what : string).        (* any other failure of a collaborator *)

Definition Result (A : Type) : Type := Thrown + A.

(** ** Data model *)

(** The provider-specific configuration is a JSON document that only the
    provider's [configGuard] inspects; it is kept as its text. *)
Definition Json := string.

Record SsoConnector := mkSsoConnector {
  connector_id : string;
  providerName : string;
  config : Json;
  domains : list string;
}.

(** [ssoConnectorFactories[providerName].configGuard.safeParse(config).success] *)
Record SsoConnectorFactory := mkFactory {
  configGuard : Json -> bool;
}.

(** Modelled from the spec: the [ApplicationType] enum of the schemas package
    is not among the sources; the spec says it is an enum that includes
    [Traditional]. *)
Inductive ApplicationType :=
| Traditional
| OtherApplicationType (name : string).

Definition ApplicationType_eqb (a b : ApplicationType) : bool :=
  match a, b with
  | Traditional, Traditional => true
  | OtherApplicationType x, OtherApplicationType y => String.eqb x y
  | _, _ => false
  end.

Record OidcClientMetadata := mkOidcClientMetadata {
  redirectUris : list string;
}.

Record Application := mkApplication {
  application_id : string;
  type : ApplicationType;
  isThirdParty : bool;
  oidcClientMetadata : OidcClientMetadata;
}.

(** ** JavaScript values used by the library *)

(** Strings are kept as their UTF-8 bytes. *)

(** [!!s] for a string. *)
Definition truthy (s : string) : bool := negb (String.eqb s "").

(** [!!v] for [v : string | undefined | null]. *)
Definition truthy_opt (v : option string) : bool :=
  match v with
  | Some s => truthy s
  | None => false
  end.

(** [s.split(sep)] for a one-character separator: never the empty array. *)
Fixpoint str_split (sep : ascii) (s : string) : list string :=
  match s with
  | EmptyString => [EmptyString]
  | String c s' =>
      if Ascii.eqb c sep then EmptyString :: str_split sep s'
      else match str_split sep s' with
           | [] => [String c EmptyString]
           | t :: ts => String c t :: ts
           end
  end.

(** [tokens.join(sep)] *)
Definition str_join (sep : string) (tokens : list string) : string :=
  String.concat sep tokens.

Fixpoint str_contains (c : ascii) (s : string) : bool :=
  match s with
  | EmptyString => false
  | String c' s' => Ascii.eqb c' c || str_contains c s'
  end.

(** *** Plain objects with string values

    An object is the list of its own enumerable properties in
    [[OwnPropertyKeys]] order: array-index keys first, in ascending numeric
    order, then the other string keys in insertion order. *)
Definition JsObject := list (string * string).

Definition is_digit (c : ascii) : bool :=
  let n := N_of_ascii c in ((48 <=? n) && (n <=? 57))%N.

Fixpoint digits_value (acc : N) (s : string) : option N :=
  match s with
  | EmptyString => Some acc
  | String c s' =>
      if is_digit c then digits_value (10 * acc + (N_of_ascii c - 48))%N s'
      else None
  end.

(** A canonical numeric string below 2^32 - 1. *)
Definition array_index (k : string) : option N :=
  match k with
  | EmptyString => None
  | String c s' =>
      if Ascii.eqb c "0" then (if String.eqb s' "" then Some 0%N else None)
      else match digits_value 0 k with
           | Some n => if (n <? 4294967295)%N then Some n else None
           | None => None
           end
  end.

Definition obj_get (k : string) (o : JsObject) : option string :=
  snd <$> List.find (fun p => String.eqb k (fst p)) o.

Arguments obj_get : simpl never.

Definition obj_has (k : string) (o : JsObject) : bool :=
  existsb (fun p => String.eqb k (fst p)) o.

Fixpoint obj_overwrite (k v : string) (o : JsObject) : JsObject :=
  match o with
  | [] => []
  | (k', v') :: o' =>
      if String.eqb k k' then (k', v) :: o' else (k', v') :: obj_overwrite k v o'
  end.

Fixpoint obj_insert_index (n : N) (k v : string) (o : JsObject) : JsObject :=
  match o with
  | [] => [(k, v)]
  | (k', v') :: o' =>
      match array_index k' with
      | Some m => if (m <? n)%N then (k', v') :: obj_insert_index n k v o'
                  else (k, v) :: o
      | None => (k, v) :: o
      end
  end.

(** [CreateDataProperty(o, k, v)]: an existing key keeps its place and takes
    the new value; a new key is placed by the ordering rule above. *)
Definition obj_set (k v : string) (o : JsObject) : JsObject :=
  if obj_has k o then obj_overwrite k v o
  else match array_index k with
       | Some n => obj_insert_index n k v o
       | None => o ++ [(k, v)]
       end.

(** An object literal [{ k1: v1, ..., ...spread }]: properties are defined
    left to right. *)
Definition obj_literal (entries : list (string * string)) : JsObject :=
  fold_left (fun o p => obj_set (fst p) (snd p) o) entries [].

(** [const { [excluded]: _, ...rest } = o]: the remaining properties are
    copied, in order, to a fresh object. *)
Definition obj_rest (excluded : string) (o : JsObject) : JsObject :=
  obj_literal (List.filter (fun p => negb (String.eqb (fst p) excluded)) o).

(** *** [URLSearchParams] *)

Definition URLSearchParams := list (string * string).

(** [new URLSearchParams(record)] *)
Definition URLSearchParams_new (record : JsObject) : URLSearchParams := record.

(** [params.append(name, value)] *)
Definition URLSearchParams_append (name value : string) (params : URLSearchParams)
  : URLSearchParams :=
  params ++ [(name, value)].

(** Bytes left as they are by the [application/x-www-form-urlencoded]
    serializer: ASCII alphanumerics and [* - . _]. *)
Definition urlencoded_safe (c : ascii) : bool :=
  let n := N_of_ascii c in
  (((48 <=? n) && (n <=? 57)) || ((65 <=? n) && (n <=? 90)) ||
   ((97 <=? n) && (n <=? 122)) ||
   (n =? 42) || (n =? 45) || (n =? 46) || (n =? 95))%N.

Definition hex_digit (n : N) : ascii :=
  if (n <? 10)%N then ascii_of_N (48 + n) else ascii_of_N (55 + n).

Definition urlencode_byte (c : ascii) : string :=
  if urlencoded_safe c then String c EmptyString
  else if Ascii.eqb c " " then "+"
  else let n := N_of_ascii c in
       String "%" (String (hex_digit (n / 16)) (String (hex_digit (n mod 16)) EmptyString)).

Fixpoint urlencode (s : string) : string :=
  match s with
  | EmptyString => EmptyString
  | String c s' => urlencode_byte c +:+ urlencode s'
  end.

(** One [name=value] sequence of the serialized query. *)
Definition sequence_of (p : string * string) : string :=
  urlencode (fst p) +:+ "=" +:+ urlencode (snd p).

(** [params.toString()] *)
Definition URLSearchParams_toString (params : URLSearchParams) : string :=
  str_join "&" (map sequence_of params).

(** *** The reading side of the query string

    What a receiver of the URL gets back from the text of the query: the
    [application/x-www-form-urlencoded] parser, the inverse wire format of
    [URLSearchParams_toString]. *)

Definition hex_value (c : ascii) : option N :=
  let n := N_of_ascii c in
  if ((48 <=? n) && (n <=? 57))%N then Some (n - 48)%N
  else if ((65 <=? n) && (n <=? 70))%N then Some (n - 55)%N
  else if ((97 <=? n) && (n <=? 102))%N then Some (n - 87)%N
  else None.

Fixpoint urldecode (s : string) : string :=
  match s with
  | EmptyString => EmptyString
  | String c rest =>
      if Ascii.eqb c "+" then String " " (urldecode rest)
      else if Ascii.eqb c "%" then
        match rest with
        | String a (String b rest') =>
            match hex_value a, hex_value b with
            | Some x, Some y => String (ascii_of_N (16 * x + y)) (urldecode rest')
            | _, _ => String c (urldecode rest)
            end
        | _ => String c (urldecode rest)
        end
      else String c (urldecode rest)
  end.

(** The text before and after the first [sep]; all of it and nothing when
    there is none. *)
Fixpoint str_cut (sep : ascii) (s : string) : string * string :=
  match s with
  | EmptyString => (EmptyString, EmptyString)
  | String c rest =>
      if Ascii.eqb c sep then (EmptyString, rest)
      else let (name, value) := str_cut sep rest in (String c name, value)
  end.

Definition URLSearchParams_parse (text : string) : URLSearchParams :=
  map (fun sequence =>
         let (name, value) := str_cut "=" sequence in
         (urldecode name, urldecode value))
      (List.filter truthy (str_split "&" text)).

(** *** Dates: a time value is an integral number of milliseconds, or NaN *)

Definition TimeValue := option Z.


(** ** Records owned by the library *)

(** The row of an IdP-initiated authentication configuration; the creation
    payload ([OmitAutoSetFields<Create...>]) has the same four fields. *)
Record SsoConnectorIdpInitiatedAuthConfig := mkAuthConfig {
  connectorId : string;
  defaultApplicationId : string;
  redirectUri : option string;
  authParameters : JsObject;
}.

(** [Pick<Partial<Create...>, 'defaultApplicationId' | 'redirectUri' |
    'authParameters'>]: every field may be left out; [redirectUri] may also be
    given as [null]. *)
Record AuthConfigPatch := mkPatch {
  set_defaultApplicationId : option string;
  set_redirectUri : option (option string);
  set_authParameters : option JsObject;
}.

(** [jsonbMode]; the library always asks for ['replace']. *)
Inductive JsonbMode := replace | merge.

(** Modelled from the spec: the [SsoSamlAssertionContent] type of the schemas
    package is not among the sources; the spec describes it as an opaque SAML
    assertion payload with an optional [conditions.notOnOrAfter].  The time
    stamp is the text of the assertion's attribute. *)
Record SamlConditions := mkConditions {
  notOnOrAfter : option string;
}.

Record SsoSamlAssertionContent := mkAssertion {
  conditions : option SamlConditions;
  payload : Json;
}.

Record IdpInitiatedSamlSsoSession := mkSession {
  session_id : string;
  session_connectorId : string;
  assertionContent : SsoSamlAssertionContent;
  expiresAt : TimeValue;
}.

(** ** Collaborators

    The calls an operation can make on the outside world: the two query
    groups taken from [queries], and the two impure imports. *)
Inductive call :=
| findAll (limit offset : option Z)
| findById (id : string)
| insertIdpInitiatedAuthConfig (data : SsoConnectorIdpInitiatedAuthConfig)
| updateIdpInitiatedAuthConfig (set : AuthConfigPatch) (where_connectorId : string)
                               (jsonbMode : JsonbMode)
| insertIdpInitiatedSamlSsoSession (session : IdpInitiatedSamlSsoSession)
| findApplicationById (id : string)
| generateStandardId
| Date_now.

(** What each call resolves to when it does not throw.  [findById] resolves
    to a connector: [getSsoConnectorById] hands the value to the guard that
    [getSsoConnectors] applies to connectors and returns it as one.  A
    repository that has no record for an id can only reject. *)
Definition answer (c : call) : Type :=
  match c with
  | findAll _ _ => (Z * list SsoConnector)%type
  | findById _ => SsoConnector
  | insertIdpInitiatedAuthConfig _ => SsoConnectorIdpInitiatedAuthConfig
  | updateIdpInitiatedAuthConfig _ _ _ => SsoConnectorIdpInitiatedAuthConfig
  | insertIdpInitiatedSamlSsoSession _ => IdpInitiatedSamlSsoSession
  | findApplicationById _ => Application
  | generateStandardId => string
  | Date_now => Z
  end.

(** ** Asynchronous operations as call trees *)

Inductive prog (A : Type) : Type :=
| Ret (a : A)
| Throw (e : Thrown)
| Call (c : call) (k : Result (answer c) -> prog A).

Arguments Ret {A} a.
Arguments Throw {A} e.
Arguments Call {A} c k.

Fixpoint bind {A B : Type} (p : prog A) (f : A -> prog B) : prog B :=
  match p with
  | Ret a => f a
  | Throw e => Throw e
  | Call c k => Call c (fun r => bind (k r) f)
  end.

#[global] Instance prog_ret : MRet prog := @Ret.
#[global] Instance prog_bind : MBind prog := fun A B f p => bind p f.

(** [await collaborator(...)]: a rejection is rethrown. *)
Definition await (c : call) : prog (answer c) :=
  Call c (fun r => match r with inl e => Throw e | inr x => Ret x end).

(** [trySafe(async () => ...)]: any rejection becomes [undefined]. *)
Fixpoint trySafe {A : Type} (p : prog A) : prog (option A) :=
  match p with
  | Ret a => Ret (Some a)
  | Throw _ => Ret None
  | Call c k => Call c (fun r => trySafe (k r))
  end.

(** [assert(value, error)] and [assertThat(value, error)] *)
Definition assertThat (value : bool) (error : Thrown) : prog unit :=
  if value then Ret tt else Throw error.

(** A collaborator answers each call from its own state. *)
Definition handler (W : Type) : Type :=
  forall c : call, W -> Result (answer c) * W.

Record outcome (W A : Type) := mkOutcome {
  result : Result A;
  world : W;
  trace : list call;
}.

Arguments mkOutcome {W A} result world trace.
Arguments result {W A} o.
Arguments world {W A} o.
Arguments trace {W A} o.

Fixpoint exec {W A : Type} (h : handler W) (p : prog A) (w : W) : outcome W A :=
  match p with
  | Ret a => mkOutcome (inr a) w []
  | Throw e => mkOutcome (inl e) w []
  | Call c k =>
      let (r, w') := h c w in
      let o := exec h (k r) w' in
      mkOutcome (result o) (world o) (c :: trace o)
  end.

(** [array.filter(callback)] where the callback may throw. *)
Fixpoint filter_throwing {A : Type} (f : A -> Result bool) (l : list A)
  : Result (list A) :=
  match l with
  | [] => inr []
  | x :: l' =>
      match f x with
      | inl e => inl e
      | inr b =>
          match filter_throwing f l' with
          | inl e => inl e
          | inr r => inr (if b then x :: r else r)
          end
      end
  end.

Definition lift {A : Type} (r : Result A) : prog A :=
  match r with
  | inl e => Throw e
  | inr a => Ret a
  end.

(** Modelled from the spec: the [QueryKey] and [Prompt] tables of the client
    SDK are not among the sources; the spec gives the wire names [client_id],
    [redirect_uri], [response_type], [prompt], [direct_sign_in] and [scope],
    and the prompt value [login]. *)
Module QueryKey.
Definition ClientId := "client_id".
Definition RedirectUri := "redirect_uri".
Definition ResponseType := "response_type".
Definition Prompt := "prompt".
Definition DirectSignIn := "direct_sign_in".
Definition Scope := "scope".
End QueryKey.

Module Prompt.
Definition Login := "login".
End Prompt.

(** The tokens without their repetitions, first occurrences kept in order
    (a [Set] built from an array and read back). *)
Fixpoint unique_from (seen : list string) (tokens : list string) : list string :=
  match tokens with
  | [] => []
  | t :: ts =>
      if bool_decide (t ∈ seen) then unique_from seen ts
      else t :: unique_from (t :: seen) ts
  end.

Definition unique (tokens : list string) : list string := unique_from [] tokens.

Section Library.

(** The imports that are not among the sources are parameters of the
    library. *)

(** [ssoConnectorFactories]: provider name to capability. *)
Variable ssoConnectorFactories : gmap string SsoConnectorFactory.
(** [defaultIdPInitiatedSamlSsoSessionTtl], in milliseconds. *)
Variable defaultIdPInitiatedSamlSsoSessionTtl : Z.
(** The reserved scopes of the client SDK. *)
Variable reservedScopes : list string.
(** [new Date(text).valueOf()]; [None] is NaN. *)
Variable Date_parse : string -> TimeValue.
(** [new URL(text)]; [None] when the constructor throws. *)
Variable URL : Type.
Variable URL_new : string -> option URL.

(** Modelled from the spec: [isSupportedSsoConnector] (in [sso/utils]) is
    not among the sources; the spec says a connector is supported iff its
    [providerName] matches a registered provider of the connector registry. *)
Definition isSupportedSsoConnector (connector : SsoConnector) : bool :=
  bool_decide (is_Some (ssoConnectorFactories !! providerName connector)).

(** Modelled from the spec: [withReservedScopes] of the client SDK is not
    among the sources; the spec says it ensures the reserved scopes are
    always present and that the result has no duplicates.  It returns the
    scope string (its result is handed to [append] as it is). *)
Definition withReservedScopes (scopes : list string) : string :=
  str_join " " (unique (reservedScopes ++ scopes)).

Definition getSsoConnectors (limit offset : option Z)
  : prog (Z * list SsoConnector) :=
  '(count, entities) ← await (findAll limit offset);
  Ret (count, List.filter isSupportedSsoConnector entities).

Definition isAvailable (connector : SsoConnector) : Result bool :=
  match ssoConnectorFactories !! providerName connector with
  | None => inl (TypeError "Cannot read properties of undefined (reading 'configGuard')")
  | Some factory =>
      let hasValidConfig := configGuard factory (config connector) in
      let hasValidDomains := (0 <? length (domains connector))%nat in
      inr (hasValidConfig && hasValidDomains)
  end.

Definition getAvailableSsoConnectors : prog (list SsoConnector) :=
  '(_, connectors) ← getSsoConnectors None None;
  lift (filter_throwing isAvailable connectors).

Definition getSsoConnectorById (id : string) : prog SsoConnector :=
  connector ← await (findById id);
  (* Return 404 if the connector is not supported *)
  assertThat (isSupportedSsoConnector connector)
    (Request (mkRequestError "connector.not_found" (Some 404))) ;;
  Ret connector.

Definition isFirstPartyTraditional (application : Application) : bool :=
  ApplicationType_eqb (type application) Traditional && negb (isThirdParty application).

Definition invalid_application_type : Thrown :=
  Request (mkRequestError "connector.saml_idp_initiated_auth_invalid_application_type" None).

Definition createSsoConnectorIdpInitiatedAuthConfig
  (data : SsoConnectorIdpInitiatedAuthConfig)
  : prog SsoConnectorIdpInitiatedAuthConfig :=
  (* Throws an 404 error if the application is not found *)
  application ← await (findApplicationById (defaultApplicationId data));
  assertThat (isFirstPartyTraditional application) invalid_application_type ;;
  await (insertIdpInitiatedAuthConfig data).

Definition updateSsoConnectorIdpInitiatedAuthConfig
  (connectorId : string) (set : AuthConfigPatch)
  : prog SsoConnectorIdpInitiatedAuthConfig :=
  (if truthy_opt (set_defaultApplicationId set) then
     match set_defaultApplicationId set with
     | Some defaultApplicationId =>
         (* Throws an 404 error if the application is not found *)
         application ← await (findApplicationById defaultApplicationId);
         assertThat (isFirstPartyTraditional application) invalid_application_type
     | None => Ret tt
     end
   else Ret tt) ;;
  await (updateIdpInitiatedAuthConfig set connectorId replace).


Definition invalid_redirect_uri : Thrown :=
  Request (mkRequestError "oidc.invalid_redirect_uri" None).

(** The right-hand side of [authConfig.redirectUri ?? (await trySafe(...))]. *)
Definition firstRegisteredRedirectUri (defaultApplicationId : string)
  : prog (option string) :=
  found ← trySafe (
    application ← await (findApplicationById defaultApplicationId);
    Ret (head (redirectUris (oidcClientMetadata application))));
  Ret (match found with Some (Some uri) => Some uri | _ => None end).

Definition resolveRedirectUri (authConfig : SsoConnectorIdpInitiatedAuthConfig)
  : prog (option string) :=
  match redirectUri authConfig with
  | Some uri => Ret (Some uri)
  | None => firstRegisteredRedirectUri (defaultApplicationId authConfig)
  end.

(** The five entries written out in the object literal. *)
Definition standardEntries (defaultApplicationId redirectUri connectorId : string)
  : list (string * string) :=
  [ (QueryKey.ClientId, defaultApplicationId);
    (QueryKey.RedirectUri, redirectUri);
    (QueryKey.ResponseType, "code");
    (QueryKey.Prompt, Prompt.Login);
    (QueryKey.DirectSignIn, "sso" +:+ ":" +:+ connectorId) ].

(** The record handed to [new URLSearchParams]: the literal with
    [...extraParams] spread last. *)
Definition queryRecord (defaultApplicationId redirectUri connectorId : string)
  (extraParams : JsObject) : JsObject :=
  obj_literal
    (standardEntries defaultApplicationId redirectUri connectorId ++ extraParams).

Definition requestedScopes (scope : option string) : list string :=
  match scope with
  | Some s => str_split " " s
  | None => []
  end.

(** [queryParameters] once [scope] has been appended. *)
Definition signInQuery (authConfig : SsoConnectorIdpInitiatedAuthConfig)
  (redirectUri : string) : URLSearchParams :=
  let scope := obj_get "scope" (authParameters authConfig) in
  let extraParams := obj_rest "scope" (authParameters authConfig) in
  let queryParameters :=
    URLSearchParams_new
      (queryRecord (defaultApplicationId authConfig) redirectUri
                   (connectorId authConfig) extraParams) in
  URLSearchParams_append QueryKey.Scope
    (withReservedScopes (requestedScopes scope)) queryParameters.

Definition signInUrlText (issuer : string) (query : URLSearchParams) : string :=
  issuer +:+ "/auth?" +:+ URLSearchParams_toString query.

(** [new URL(text)] *)
Definition construct_URL (text : string) : Result URL :=
  match URL_new text with
  | Some url => inr url
  | None => inl (TypeError "Invalid URL")
  end.

Definition getIdpInitiatedSamlSsoSignInUrl
  (issuer : string) (authConfig : SsoConnectorIdpInitiatedAuthConfig)
  : prog URL :=
  (* Get the first registered redirect URI of the default application if
     not provided *)
  redirectUri ← resolveRedirectUri authConfig;
  match redirectUri with
  | Some uri =>
      if truthy uri then
        lift (construct_URL (signInUrlText issuer (signInQuery authConfig uri)))
      else Throw invalid_redirect_uri
  | None => Throw invalid_redirect_uri
  end.

End Library.

(** ** Specification vocabulary *)

(** The redirect URI as the specification words it: [authConfig.redirectUri]
    when set, otherwise the first registered redirect URI of the default
    application, a failed lookup counting as no URI.  [lookup] is the answer
    to [findApplicationById defaultApplicationId]. *)
Definition spec_resolvedRedirectUri (authConfig : SsoConnectorIdpInitiatedAuthConfig)
  (lookup : Result Application) : option string :=
  match redirectUri authConfig with
  | Some uri => Some uri
  | None =>
      match lookup with
      | inr application => head (redirectUris (oidcClientMetadata application))
      | inl _ => None
      end
  end.

(** The keys of the five entries written out in the query literal. *)
Definition standardKeys : list string :=
  ["client_id"; "redirect_uri"; "response_type"; "prompt"; "direct_sign_in"].

(** The binding that wins when [entries] are defined left to right. *)
Fixpoint obj_get_last (k : string) (entries : list (string * string)) : option string :=
  match entries with
  | [] => None
  | (k1, v1) :: rest =>
      match obj_get_last k rest with
      | Some v => Some v
      | None => if String.eqb k k1 then Some v1 else None
      end
  end.

(** The order in which a plain object lists its own keys: the array indices
    first, by ascending value, then the other names. *)
Definition own_key_order (keys : list string) : Prop :=
  ∃ indices names,
    keys = indices ++ names
    ∧ Forall (fun k => is_Some (array_index k)) indices
    ∧ StronglySorted
        (fun k k' => ∀ n n', array_index k = Some n → array_index k' = Some n' → (n ≤ n')%N)
        indices
    ∧ Forall (fun k => array_index k = None) names.

(** ** An in-memory tenant

    A concrete collaborator, used to run the operations on explicit inputs. *)
Module Sample.

Record World := mkWorld {
  connectors : list SsoConnector;
  applications : list Application;
  authConfigs : list SsoConnectorIdpInitiatedAuthConfig;
  sessions : list IdpInitiatedSamlSsoSession;
  clock : Z;
  nextId : string;
}.

Definition page {A : Type} (limit offset : option Z) (rows : list A) : list A :=
  let rest := drop (Z.to_nat (default 0 offset)) rows in
  match limit with
  | Some n => take (Z.to_nat n) rest
  | None => rest
  end.

Definition not_exists : Thrown :=
  Request (mkRequestError "entity.not_exists_with_id" (Some 404)).

Definition patch (set : AuthConfigPatch) (row : SsoConnectorIdpInitiatedAuthConfig)
  : SsoConnectorIdpInitiatedAuthConfig :=
  mkAuthConfig (connectorId row)
    (default (defaultApplicationId row) (set_defaultApplicationId set))
    (default (redirectUri row) (set_redirectUri set))
    (default (authParameters row) (set_authParameters set)).

Definition tenant : handler World := fun c w =>
  match c with
  | findAll limit offset =>
      (inr (Z.of_nat (length (connectors w)), page limit offset (connectors w)), w)
  | findById id =>
      match List.find (fun c => String.eqb (connector_id c) id) (connectors w) with
      | Some connector => (inr connector, w)
      | None => (inl not_exists, w)
      end
  | insertIdpInitiatedAuthConfig data =>
      if existsb (fun r => String.eqb (connectorId r) (connectorId data)) (authConfigs w)
      then (inl (Foreign "unique constraint violation"), w)
      else (inr data,
            mkWorld (connectors w) (applications w) (authConfigs w ++ [data])
                    (sessions w) (clock w) (nextId w))
  | updateIdpInitiatedAuthConfig set where_connectorId _ =>
      match List.find (fun r => String.eqb (connectorId r) where_connectorId)
                      (authConfigs w) with
      | Some row =>
          (inr (patch set row),
           mkWorld (connectors w) (applications w)
                   (map (fun r => if String.eqb (connectorId r) where_connectorId
                                  then patch set r else r) (authConfigs w))
                   (sessions w) (clock w) (nextId w))
      | None => (inl not_exists, w)
      end
  | insertIdpInitiatedSamlSsoSession session =>
      (inr session,
       mkWorld (connectors w) (applications w) (authConfigs w)
               (sessions w ++ [session]) (clock w) (nextId w))
  | findApplicationById id =>
      match List.find (fun a => String.eqb (application_id a) id) (applications w) with
      | Some application => (inr application, w)
      | None => (inl not_exists, w)
      end
  | generateStandardId =>
      (inr (nextId w),
       mkWorld (connectors w) (applications w) (authConfigs w) (sessions w)
               (clock w) (nextId w +:+ "'"))
  | Date_now => (inr (clock w), w)
  end.

(** One registered provider, whose guard accepts configurations that name an
    issuer. *)
Definition factories : gmap string SsoConnectorFactory :=
  {[ "okta" := mkFactory (String.prefix "issuer=") ]}.

Definition c1 : SsoConnector :=
  mkSsoConnector "c1" "okta" "issuer=https://idp.example" [].
Definition c2 : SsoConnector :=
  mkSsoConnector "c2" "okta" "issuer=https://idp.example" ["example.com"].
Definition c3 : SsoConnector :=
  mkSsoConnector "c3" "legacy" "issuer=https://old.example" ["old.example"].
Definition c4 : SsoConnector :=
  mkSsoConnector "c4" "okta" "broken" ["example.org"].

Definition a1 : Application :=
  mkApplication "a1" Traditional false (mkOidcClientMetadata ["https://app.example/cb"]).
Definition a2 : Application :=
  mkApplication "a2" (OtherApplicationType "SPA") false (mkOidcClientMetadata []).
Definition a3 : Application :=
  mkApplication "a3" Traditional true (mkOidcClientMetadata []).
Definition a4 : Application :=
  mkApplication "a4" Traditional false (mkOidcClientMetadata []).

Definition world0 : World :=
  mkWorld [c1; c2; c3; c4] [a1; a2; a3; a4] [] [] 1700000000000 "s1".


Definition reservedScopes : list string := ["openid"; "offline_access"; "profile"].


(** The constructor of a URL that keeps the text it was given. *)
Definition URL_new (text : string) : option string := Some text.

End Sample.

(** * Properties *)

(** ** Plain objects *)

Lemma obj_get_cons k k1 v1 (o : JsObject) :
  obj_get k ((k1, v1) :: o) = if String.eqb k k1 then Some v1 else obj_get k o.
Proof. unfold obj_get. cbn. by destruct (String.eqb k k1). Qed.

Lemma obj_has_elem k (o : JsObject) : obj_has k o = true ↔ k ∈ o.*1.
Proof.
  unfold obj_has. induction o as [|[k1 v1] o IH]; cbn.
  - split; [done | by intros ?%elem_of_nil].
  - rewrite orb_true_iff, IH, elem_of_cons, String.eqb_eq. done.
Qed.

Lemma obj_has_false k (o : JsObject) : obj_has k o = false ↔ k ∉ o.*1.
Proof. rewrite <- obj_has_elem. by destruct (obj_has k o). Qed.

Lemma obj_get_None k (o : JsObject) : obj_get k o = None ↔ k ∉ o.*1.
Proof.
  induction o as [|[k1 v1] o IH]; [by split; [intros _ ?%elem_of_nil|]|].
  rewrite obj_get_cons. cbn. rewrite not_elem_of_cons.
  destruct (String.eqb_spec k k1) as [->|Hne]; [intuition congruence|].
  rewrite IH. intuition congruence.
Qed.

Lemma obj_get_elem k v (o : JsObject) :
  NoDup o.*1 → obj_get k o = Some v ↔ (k, v) ∈ o.
Proof.
  induction o as [|[k1 v1] o IH]; intros Hnd.
  - split; [done | by intros ?%elem_of_nil].
  - cbn in Hnd. apply NoDup_cons in Hnd as [Hk1 Hnd].
    rewrite obj_get_cons, elem_of_cons.
    destruct (String.eqb_spec k k1) as [->|Hne].
    + split; [intuition congruence|]. intros [?|Hin]; [intuition congruence|].
      exfalso. apply Hk1. apply list_elem_of_fmap. by exists (k1, v).
    + rewrite IH by done. intuition congruence.
Qed.

Lemma obj_get_elem_1 k v (o : JsObject) : obj_get k o = Some v → (k, v) ∈ o.
Proof.
  induction o as [|[k1 v1] o IH]; [done|].
  rewrite obj_get_cons, elem_of_cons.
  destruct (String.eqb_spec k k1) as [->|Hne]; intuition congruence.
Qed.

Lemma obj_overwrite_keys k v (o : JsObject) : (obj_overwrite k v o).*1 = o.*1.
Proof.
  induction o as [|[k1 v1] o IH]; [done|]. cbn.
  destruct (String.eqb k k1); cbn; by rewrite ?IH.
Qed.

Lemma obj_insert_index_keys n k v (o : JsObject) :
  (obj_insert_index n k v o).*1 ≡ₚ k :: o.*1.
Proof.
  induction o as [|[k1 v1] o IH]; [done|]. cbn.
  destruct (array_index k1) as [m|]; [|done].
  destruct (m <? n)%N; [|done]. cbn. rewrite IH. apply Permutation_swap.
Qed.

Lemma obj_set_keys_old k v (o : JsObject) :
  k ∈ o.*1 → (obj_set k v o).*1 = o.*1.
Proof.
  intros Hin%obj_has_elem. unfold obj_set. rewrite Hin. apply obj_overwrite_keys.
Qed.

Lemma obj_set_keys_new k v (o : JsObject) :
  k ∉ o.*1 → (obj_set k v o).*1 ≡ₚ k :: o.*1.
Proof.
  intros Hin%obj_has_false. unfold obj_set. rewrite Hin.
  destruct (array_index k) as [n|].
  - apply obj_insert_index_keys.
  - rewrite fmap_app. cbn. by rewrite Permutation_app_comm.
Qed.

Lemma obj_set_NoDup k v (o : JsObject) : NoDup o.*1 → NoDup (obj_set k v o).*1.
Proof.
  intros Hnd. destruct (decide (k ∈ o.*1)) as [Hin|Hin].
  - by rewrite obj_set_keys_old.
  - rewrite obj_set_keys_new by done. by apply NoDup_cons.
Qed.

Lemma obj_get_overwrite k' k v (o : JsObject) :
  k ∈ o.*1 →
  obj_get k' (obj_overwrite k v o) = if String.eqb k' k then Some v else obj_get k' o.
Proof.
  induction o as [|[k1 v1] o IH]; [by intros ?%elem_of_nil|].
  cbn [fmap list_fmap fst]. rewrite elem_of_cons. intros Hin. cbn [obj_overwrite].
  destruct (String.eqb_spec k k1) as [->|Hne].
  - rewrite !obj_get_cons. by destruct (String.eqb k' k1).
  - destruct Hin as [?|Hin]; [done|]. rewrite !obj_get_cons, IH by done.
    destruct (String.eqb_spec k' k1) as [->|?]; [|done].
    by destruct (String.eqb_spec k1 k).
Qed.

Lemma obj_get_insert_index k' n k v (o : JsObject) :
  k ∉ o.*1 →
  obj_get k' (obj_insert_index n k v o)
  = if String.eqb k' k then Some v else obj_get k' o.
Proof.
  induction o as [|[k1 v1] o IH];
    [intros _; cbn [obj_insert_index]; by rewrite obj_get_cons|].
  cbn [fmap list_fmap fst]. rewrite not_elem_of_cons. intros [Hne Hin].
  cbn [obj_insert_index].
  destruct (array_index k1) as [m|]; [|by rewrite obj_get_cons].
  destruct (m <? n)%N; [|by rewrite obj_get_cons].
  rewrite !obj_get_cons, IH by done.
  destruct (String.eqb_spec k' k1) as [->|?]; [|done].
  by destruct (String.eqb_spec k1 k).
Qed.

Lemma obj_get_snoc k' k v (o : JsObject) :
  k ∉ o.*1 →
  obj_get k' (o ++ [(k, v)]) = if String.eqb k' k then Some v else obj_get k' o.
Proof.
  induction o as [|[k1 v1] o IH]; [intros _; cbn [app]; by rewrite obj_get_cons|].
  cbn [fmap list_fmap fst]. rewrite not_elem_of_cons. intros [Hne Hin].
  rewrite <- app_comm_cons, !obj_get_cons, IH by done.
  destruct (String.eqb_spec k' k1) as [->|?]; [|done].
  by destruct (String.eqb_spec k1 k).
Qed.

(** Reading a property after [CreateDataProperty]. *)
Lemma obj_get_set k' k v (o : JsObject) :
  obj_get k' (obj_set k v o) = if String.eqb k' k then Some v else obj_get k' o.
Proof.
  unfold obj_set. destruct (obj_has k o) eqn:Hhas.
  - apply obj_get_overwrite. by apply obj_has_elem.
  - apply obj_has_false in Hhas. destruct (array_index k).
    + by apply obj_get_insert_index.
    + by apply obj_get_snoc.
Qed.

Lemma obj_get_fold k entries (o : JsObject) :
  obj_get k (fold_left (fun o p => obj_set (fst p) (snd p) o) entries o)
  = match obj_get_last k entries with
    | Some v => Some v
    | None => obj_get k o
    end.
Proof.
  revert o. induction entries as [|[k1 v1] entries IH]; intros o; [done|].
  cbn [fold_left obj_get_last]. rewrite IH, obj_get_set. cbn [fst snd].
  by destruct (obj_get_last k entries), (String.eqb k k1).
Qed.

Lemma obj_fold_NoDup entries (o : JsObject) :
  NoDup o.*1 →
  NoDup (fold_left (fun o p => obj_set (fst p) (snd p) o) entries o).*1.
Proof.
  revert o. induction entries as [|[k1 v1] entries IH]; intros o Hnd; [done|].
  cbn [fold_left]. apply IH. by apply obj_set_NoDup.
Qed.

Lemma obj_literal_NoDup entries : NoDup (obj_literal entries).*1.
Proof. apply obj_fold_NoDup. constructor. Qed.

Lemma obj_get_literal k entries :
  obj_get k (obj_literal entries) = obj_get_last k entries.
Proof. unfold obj_literal. rewrite obj_get_fold. by destruct (obj_get_last k entries). Qed.

Lemma obj_get_last_app k (a b : list (string * string)) :
  obj_get_last k (a ++ b)
  = match obj_get_last k b with
    | Some v => Some v
    | None => obj_get_last k a
    end.
Proof.
  induction a as [|[k1 v1] a IH]; cbn.
  - by destruct (obj_get_last k b).
  - rewrite IH. by destruct (obj_get_last k b).
Qed.

Lemma obj_get_last_None k (o : JsObject) : obj_get_last k o = None ↔ k ∉ o.*1.
Proof.
  induction o as [|[k1 v1] o IH]; cbn.
  - split; [by intros _ ?%elem_of_nil | done].
  - rewrite not_elem_of_cons, <- IH.
    destruct (obj_get_last k o); [intuition congruence|].
    destruct (String.eqb_spec k k1); intuition congruence.
Qed.

Lemma obj_get_last_NoDup k (o : JsObject) :
  NoDup o.*1 → obj_get_last k o = obj_get k o.
Proof.
  induction o as [|[k1 v1] o IH]; [done|]. cbn. intros [Hk1 Hnd]%NoDup_cons.
  rewrite obj_get_cons, IH by done.
  destruct (String.eqb_spec k k1) as [->|?].
  - apply obj_get_None in Hk1. by rewrite Hk1.
  - by destruct (obj_get k o).
Qed.

Lemma obj_get_filter_ne k excluded (o : JsObject) :
  obj_get k (List.filter (fun p => negb (String.eqb (fst p) excluded)) o)
  = if String.eqb k excluded then None else obj_get k o.
Proof.
  induction o as [|[k1 v1] o IH]; [by destruct (String.eqb k excluded)|].
  cbn. destruct (String.eqb_spec k1 excluded) as [->|Hne]; cbn.
  - rewrite IH, obj_get_cons. by destruct (String.eqb k excluded).
  - rewrite !obj_get_cons, IH.
    destruct (String.eqb_spec k k1) as [->|?]; [|done].
    by destruct (String.eqb_spec k1 excluded).
Qed.

Lemma filter_keys_NoDup excluded (o : JsObject) :
  NoDup o.*1 →
  NoDup (List.filter (fun p => negb (String.eqb (fst p) excluded)) o).*1.
Proof.
  induction o as [|[k1 v1] o IH]; [done|]. cbn. intros [Hk1 Hnd]%NoDup_cons.
  destruct (negb (String.eqb k1 excluded)); [|by apply IH].
  cbn. apply NoDup_cons. split; [|by apply IH].
  intros [[k2 v2] [-> Hin]]%list_elem_of_fmap. apply Hk1.
  apply list_elem_of_In, filter_In in Hin as [Hin _].
  apply list_elem_of_fmap. exists (k2, v2). split; [done|]. by apply list_elem_of_In.
Qed.

(** The rest object keeps every property but the excluded one. *)
Lemma obj_get_rest k excluded (o : JsObject) :
  NoDup o.*1 →
  obj_get k (obj_rest excluded o)
  = if String.eqb k excluded then None else obj_get k o.
Proof.
  intros Hnd. unfold obj_rest.
  rewrite obj_get_literal, obj_get_last_NoDup by by apply filter_keys_NoDup.
  apply obj_get_filter_ne.
Qed.

(** ** Splitting and joining *)

Lemma str_app_nil (s : string) : EmptyString +:+ s = s.
Proof. reflexivity. Qed.

Lemma str_app_cons (c : ascii) (t s : string) : String c t +:+ s = String c (t +:+ s).
Proof. reflexivity. Qed.

Lemma str_join_cons sep (x y : string) (l : list string) :
  str_join sep (x :: y :: l) = x +:+ sep +:+ str_join sep (y :: l).
Proof. reflexivity. Qed.

Lemma str_split_nonempty sep s : str_split sep s ≠ [].
Proof.
  destruct s as [|c s]; cbn -[Ascii.eqb]; [done|].
  destruct (Ascii.eqb c sep); [done|]. by destruct (str_split sep s).
Qed.

Lemma str_split_free sep t :
  str_contains sep t = false → str_split sep t = [t].
Proof.
  induction t as [|c t IH]; cbn -[Ascii.eqb]; [done|].
  rewrite orb_false_iff. intros [-> Ht]. by rewrite IH.
Qed.

Lemma str_split_app sep t rest :
  str_contains sep t = false →
  str_split sep (t +:+ String sep rest) = t :: str_split sep rest.
Proof.
  induction t as [|c t IH]; cbn -[Ascii.eqb].
  - intros _. rewrite str_app_nil. cbn -[Ascii.eqb]. by rewrite Ascii.eqb_refl.
  - rewrite orb_false_iff. intros [Hc Ht]. rewrite str_app_cons. cbn -[Ascii.eqb].
    by rewrite Hc, IH.
Qed.

Lemma str_split_tokens_free sep s :
  Forall (fun t => str_contains sep t = false) (str_split sep s).
Proof.
  induction s as [|c s IH]; cbn -[Ascii.eqb]; [by repeat constructor|].
  destruct (Ascii.eqb c sep) eqn:Hc; [by constructor|].
  destruct (str_split sep s) as [|t ts].
  - constructor; [|constructor]. cbn -[Ascii.eqb]. by rewrite Hc.
  - apply Forall_cons in IH as [Ht Hts]. constructor; [|done].
    cbn -[Ascii.eqb]. by rewrite Hc.
Qed.

Lemma str_join_split sep s :
  str_join (String sep EmptyString) (str_split sep s) = s.
Proof.
  induction s as [|c s IH]; cbn -[Ascii.eqb]; [done|].
  pose proof (str_split_nonempty sep s).
  destruct (Ascii.eqb_spec c sep) as [->|Hne].
  - destruct (str_split sep s) as [|t ts]; [done|].
    by rewrite str_join_cons, str_app_nil, str_app_cons, str_app_nil, IH.
  - destruct (str_split sep s) as [|t ts]; [done|].
    destruct ts as [|t' ts].
    + cbn in IH. by rewrite <- IH.
    + rewrite str_join_cons, str_app_cons. rewrite str_join_cons in IH. by rewrite IH.
Qed.

Lemma str_split_join sep tokens :
  tokens ≠ [] →
  Forall (fun t => str_contains sep t = false) tokens →
  str_split sep (str_join (String sep EmptyString) tokens) = tokens.
Proof.
  intros Hne Hfree. induction Hfree as [|t ts Ht Hts IH]; [done|].
  destruct ts as [|t' ts].
  - by apply str_split_free.
  - rewrite str_join_cons, str_app_cons, str_app_nil, str_split_app by done.
    by rewrite IH.
Qed.

(** ** Removing duplicates *)

Lemma elem_of_unique_from seen tokens t :
  t ∈ unique_from seen tokens ↔ t ∈ tokens ∧ t ∉ seen.
Proof.
  revert seen. induction tokens as [|x tokens IH]; intros seen; cbn.
  - rewrite !elem_of_nil. intuition congruence.
  - case_bool_decide as Hx.
    + rewrite IH, elem_of_cons. intuition congruence.
    + rewrite !elem_of_cons, IH, not_elem_of_cons.
      destruct (decide (t = x)); intuition congruence.
Qed.

Lemma unique_from_NoDup seen tokens : NoDup (unique_from seen tokens).
Proof.
  revert seen. induction tokens as [|x tokens IH]; intros seen; cbn; [constructor|].
  case_bool_decide; [done|]. constructor; [|done].
  rewrite elem_of_unique_from, not_elem_of_cons. intuition congruence.
Qed.

Lemma elem_of_unique tokens t : t ∈ unique tokens ↔ t ∈ tokens.
Proof. unfold unique. rewrite elem_of_unique_from, elem_of_nil. intuition congruence. Qed.

Lemma unique_NoDup tokens : NoDup (unique tokens).
Proof. apply unique_from_NoDup. Qed.

(** ** The query string round trip *)

Lemma str_contains_app c (a b : string) :
  str_contains c (a +:+ b) = str_contains c a || str_contains c b.
Proof.
  induction a as [|x a IH]; [done|].
  rewrite str_app_cons. cbn -[Ascii.eqb]. by rewrite IH, orb_assoc.
Qed.

Lemma urlencode_byte_free (c : ascii) :
  str_contains "&" (urlencode_byte c) = false
  ∧ str_contains "=" (urlencode_byte c) = false.
Proof. destruct c as [[] [] [] [] [] [] [] []]; by vm_compute. Qed.

Lemma urlencode_free (s : string) :
  str_contains "&" (urlencode s) = false ∧ str_contains "=" (urlencode s) = false.
Proof.
  induction s as [|c s [IH1 IH2]]; [done|].
  cbn [urlencode]. rewrite !str_contains_app, IH1, IH2.
  by destruct (urlencode_byte_free c) as [-> ->].
Qed.

Lemma urldecode_byte (c : ascii) (rest : string) :
  urldecode (urlencode_byte c +:+ rest) = String c (urldecode rest).
Proof. destruct c as [[] [] [] [] [] [] [] []]; reflexivity. Qed.

Lemma urldecode_urlencode (s : string) : urldecode (urlencode s) = s.
Proof.
  induction s as [|c s IH]; [done|].
  cbn [urlencode]. by rewrite urldecode_byte, IH.
Qed.

Lemma str_cut_app sep (a b : string) :
  str_contains sep a = false →
  str_cut sep (a +:+ String sep b) = (a, b).
Proof.
  induction a as [|x a IH]; cbn -[Ascii.eqb].
  - intros _. rewrite str_app_nil. cbn -[Ascii.eqb]. by rewrite Ascii.eqb_refl.
  - rewrite orb_false_iff. intros [Hx Ha]. rewrite str_app_cons. cbn -[Ascii.eqb].
    by rewrite Hx, IH.
Qed.

Lemma sequence_of_free p : str_contains "&" (sequence_of p) = false.
Proof.
  unfold sequence_of. rewrite !str_contains_app.
  destruct (urlencode_free (fst p)) as [-> _].
  by destruct (urlencode_free (snd p)) as [-> _].
Qed.

Lemma sequence_of_truthy p : truthy (sequence_of p) = true.
Proof.
  unfold sequence_of, truthy. destruct (urlencode (fst p)); by rewrite ?str_app_cons.
Qed.

Lemma sequence_of_cut p :
  (let (name, value) := str_cut "=" (sequence_of p) in (urldecode name, urldecode value)) = p.
Proof.
  unfold sequence_of. rewrite str_app_cons, str_app_nil.
  rewrite str_cut_app by apply urlencode_free.
  rewrite !urldecode_urlencode. by destruct p.
Qed.

(** Parsing the text of [toString] gives the parameters back, in order. *)
Lemma URLSearchParams_parse_toString (params : URLSearchParams) :
  URLSearchParams_parse (URLSearchParams_toString params) = params.
Proof.
  unfold URLSearchParams_parse, URLSearchParams_toString.
  destruct params as [|p params]; [done|].
  rewrite (str_split_join "&" (map sequence_of (p :: params))).
  - generalize (p :: params). intros l. induction l as [|q l IH]; [done|].
    cbn [map List.filter]. rewrite sequence_of_truthy. cbn [map].
    by rewrite sequence_of_cut, IH.
  - done.
  - apply Forall_forall. intros t [q [-> _]]%list_elem_of_fmap. apply sequence_of_free.
Qed.

Lemma filter_sublist {A} (f : A → bool) (l : list A) : sublist (List.filter f l) l.
Proof.
  induction l as [|x l IH]; cbn; [constructor|].
  destruct (f x); by constructor.
Qed.

Lemma elem_of_List_filter {A} (f : A → bool) (l : list A) x :
  x ∈ List.filter f l ↔ x ∈ l ∧ f x = true.
Proof. rewrite !list_elem_of_In. apply filter_In. Qed.

Section Execution.
Context {W : Type} (h : handler W).

Lemma exec_bind {A B} (p : prog A) (f : A → prog B) (w : W) :
  exec h (p ≫= f) w =
    let o1 := exec h p w in
    match result o1 with
    | inl e => mkOutcome (inl e) (world o1) (trace o1)
    | inr a => let o2 := exec h (f a) (world o1) in
               mkOutcome (result o2) (world o2) (trace o1 ++ trace o2)
    end.
Proof.
  unfold mbind, prog_bind. revert w.
  induction p as [a|e|c k IH]; intros w; cbn.
  - by destruct (exec h (f a) w).
  - done.
  - destruct (h c w) as [r w1]. rewrite IH. cbn.
    by destruct (result (exec h (k r) w1)).
Qed.

Lemma exec_await (c : call) (w : W) :
  exec h (await c) w = mkOutcome (h c w).1 (h c w).2 [c].
Proof. cbn. by destruct (h c w) as [[e|x] w1]. Qed.

Lemma exec_assertThat (b : bool) (e : Thrown) (w : W) :
  exec h (assertThat b e) w = mkOutcome (if b then inr tt else inl e) w [].
Proof. by destruct b. Qed.

Lemma exec_lift {A} (r : Result A) (w : W) :
  exec h (lift r) w = mkOutcome r w [].
Proof. by destruct r. Qed.

(** [trySafe] makes the same calls and leaves the same state; only a
    rejection is turned into [undefined]. *)
Lemma exec_trySafe {A} (p : prog A) (w : W) :
  exec h (trySafe p) w =
    let o := exec h p w in
    mkOutcome (inr (match result o with inl _ => None | inr a => Some a end))
              (world o) (trace o).
Proof.
  revert w. induction p as [a|e|c k IH]; intros w; cbn; [done..|].
  destruct (h c w) as [r w1]. by rewrite IH.
Qed.
End Execution.

(** ** Connector discovery *)

Section Discovery.
Variable ssoConnectorFactories : gmap string SsoConnectorFactory.
Context {W : Type} (h : handler W).

Lemma isAvailable_supported l :
  Forall (fun c => isSupportedSsoConnector ssoConnectorFactories c = true) l →
  filter_throwing (isAvailable ssoConnectorFactories) l
  = inr (List.filter
           (fun c => match ssoConnectorFactories !! providerName c with
                     | Some f => configGuard f (config c) && (0 <? length (domains c))%nat
                     | None => false
                     end) l).
Proof.
  induction 1 as [|c l Hc _ IH]; [done|]. cbn. rewrite IH.
  unfold isSupportedSsoConnector in Hc. apply bool_decide_eq_true in Hc as [f Hf].
  unfold isAvailable. rewrite Hf. done.
Qed.

(** C9.  For every limit and offset, [getSsoConnectors] returns the count
    reported by [findAll] unchanged as its first component and, as its
    second, exactly the connectors of the fetched page whose [providerName]
    has a registered capability: a sublist of the page, never longer than
    the page, whatever the count says. *)
Theorem getSsoConnectors_count_and_supported_page
    (limit offset : option Z) (w w' : W) (count : Z) (entities : list SsoConnector) :
  h (findAll limit offset) w = (inr (count, entities), w') →
  let o := exec h (getSsoConnectors ssoConnectorFactories limit offset) w in
  ∃ supported,
    result o = inr (count, supported)
    ∧ trace o = [findAll limit offset]
    ∧ supported
      = List.filter
          (fun c => bool_decide (is_Some (ssoConnectorFactories !! providerName c)))
          entities
    ∧ (∀ c, c ∈ supported ↔
            c ∈ entities ∧ is_Some (ssoConnectorFactories !! providerName c))
    ∧ sublist supported entities
    ∧ (length supported ≤ length entities)%nat.
Proof.
  intros Hh. cbn zeta.
  exists (List.filter (isSupportedSsoConnector ssoConnectorFactories) entities).
  unfold getSsoConnectors.
  rewrite exec_bind, (exec_await h (findAll limit offset)), Hh. cbn.
  split_and!; [done..| | |].
  - intros c. rewrite elem_of_List_filter. unfold isSupportedSsoConnector.
    by rewrite bool_decide_eq_true.
  - apply filter_sublist.
  - apply sublist_length, filter_sublist.
Qed.

(** C4.  [getAvailableSsoConnectors] returns a persisted connector if and
    only if a capability is registered for its [providerName], that
    capability's [configGuard] accepts the stored config, and its domains are
    not empty; in particular a connector without domains is never returned.
    The lookup of the factory never throws. *)
Theorem getAvailableSsoConnectors_iff
    (w w' : W) (count : Z) (entities : list SsoConnector) :
  h (findAll None None) w = (inr (count, entities), w') →
  ∃ available,
    result (exec h (getAvailableSsoConnectors ssoConnectorFactories) w) = inr available
    ∧ (∀ c, c ∈ available ↔
            c ∈ entities
            ∧ ∃ factory, ssoConnectorFactories !! providerName c = Some factory
                         ∧ configGuard factory (config c) = true
                         ∧ domains c ≠ [])
    ∧ (∀ c, domains c = [] → c ∉ available)
    ∧ sublist available entities.
Proof.
  intros Hh.
  set (ok := fun c => match ssoConnectorFactories !! providerName c with
                      | Some f => configGuard f (config c) && (0 <? length (domains c))%nat
                      | None => false
                      end).
  set (supported := List.filter (isSupportedSsoConnector ssoConnectorFactories) entities).
  assert (Hiff : ∀ c, c ∈ List.filter ok supported ↔
            c ∈ entities
            ∧ ∃ factory, ssoConnectorFactories !! providerName c = Some factory
                         ∧ configGuard factory (config c) = true
                         ∧ domains c ≠ []).
  { intros c. unfold supported. rewrite !elem_of_List_filter.
    unfold ok, isSupportedSsoConnector. rewrite bool_decide_eq_true.
    destruct (ssoConnectorFactories !! providerName c) as [f|] eqn:Hf.
    - rewrite andb_true_iff, Nat.ltb_lt. split.
      + intros [[Hin _] [Hcfg Hdom]]. split; [done|]. exists f.
        split_and!; [done..|]. intros Hnil. rewrite Hnil in Hdom. cbn in Hdom. lia.
      + intros [Hin (f' & [= <-] & Hcfg & Hdom)]. split_and!; [done|by eexists|done|].
        destruct (domains c); [done | cbn; lia].
    - split; [by intros [_ ?] | by intros [_ (? & ? & _)]]. }
  exists (List.filter ok supported).
  unfold getAvailableSsoConnectors, getSsoConnectors.
  rewrite !exec_bind, (exec_await h (findAll None None)), Hh. cbn.
  rewrite exec_lift. cbn. rewrite isAvailable_supported.
  2:{ apply Forall_forall. intros c Hc. by apply elem_of_List_filter in Hc as [_ ?]. }
  split_and!; [done|done| |].
  - intros c Hnil [_ (? & _ & _ & Hdom)]%Hiff. done.
  - etrans; apply filter_sublist.
Qed.

End Discovery.

(** ** IdP-initiated authentication configuration *)

Section AuthConfig.
Context {W : Type} (h : handler W).

Lemma exec_validate (id : string) (w : W) :
  exec h (await (findApplicationById id) ≫= λ application,
            assertThat (isFirstPartyTraditional application) invalid_application_type) w
  = mkOutcome
      (match (h (findApplicationById id) w).1 with
       | inl e => inl e
       | inr application =>
           if isFirstPartyTraditional application then inr tt
           else inl invalid_application_type
       end)
      (h (findApplicationById id) w).2
      [findApplicationById id].
Proof.
  rewrite exec_bind, (exec_await h (findApplicationById id)).
  destruct (h (findApplicationById id) w) as [[e|application] w1]; [done|].
  cbn [result world trace fst snd]. rewrite exec_assertThat.
  by destruct (isFirstPartyTraditional application).
Qed.

(** C6.  [createSsoConnectorIdpInitiatedAuthConfig] fails with the error of
    the application lookup when [defaultApplicationId] resolves to no
    application, fails with the invalid-application-type error when the
    application is not [Traditional] or is third-party, and calls the
    repository insert, with the data it was given, exactly when the
    application is a first-party [Traditional] one; its result is then the
    insert's. *)
Theorem createSsoConnectorIdpInitiatedAuthConfig_validates_then_inserts
    (data : SsoConnectorIdpInitiatedAuthConfig) (w w1 : W) (lookup : Result Application) :
  h (findApplicationById (defaultApplicationId data)) w = (lookup, w1) →
  let o := exec h (createSsoConnectorIdpInitiatedAuthConfig data) w in
  let lookup_call := findApplicationById (defaultApplicationId data) in
  let insert_call := insertIdpInitiatedAuthConfig data in
  (∀ e, lookup = inl e → result o = inl e ∧ trace o = [lookup_call])
  ∧ (∀ application, lookup = inr application →
       type application ≠ Traditional ∨ isThirdParty application = true →
       result o = inl (Request (mkRequestError
                    "connector.saml_idp_initiated_auth_invalid_application_type" None))
       ∧ trace o = [lookup_call])
  ∧ (∀ application, lookup = inr application →
       type application = Traditional → isThirdParty application = false →
       trace o = [lookup_call; insert_call]
       ∧ result o = (h insert_call w1).1
       ∧ world o = (h insert_call w1).2)
  ∧ ((∃ d, insertIdpInitiatedAuthConfig d ∈ trace o) ↔
       ∃ application, lookup = inr application
                      ∧ type application = Traditional
                      ∧ isThirdParty application = false).
Proof.
  intros Hh. cbn zeta. unfold createSsoConnectorIdpInitiatedAuthConfig.
  rewrite exec_bind, (exec_await h (findApplicationById _)), Hh.
  cbn [result world trace fst snd].
  destruct lookup as [e|application].
  { split_and!; [by intros ? [= <-]|done|done|].
    split; [|by intros (? & ? & _)].
    intros [d Hd]. apply list_elem_of_singleton in Hd. done. }
  rewrite exec_bind, exec_assertThat. cbn [result world trace].
  assert (Hchoice : isFirstPartyTraditional application = true ↔
            type application = Traditional ∧ isThirdParty application = false).
  { unfold isFirstPartyTraditional. rewrite andb_true_iff, negb_true_iff.
    destruct (type application); cbn; intuition congruence. }
  destruct (isFirstPartyTraditional application) eqn:Hok.
  - destruct Hchoice as [[Htype Hthird] _]; [done|].
    rewrite (exec_await h (insertIdpInitiatedAuthConfig data)). cbn.
    split_and!; [done| | |].
    + intros ? [= <-] [?|?]; congruence.
    + by intros ? [= <-].
    + split; [by exists application|]. intros _. exists data.
      apply list_elem_of_further, list_elem_of_here.
  - cbn. split_and!; [done| | |].
    + by intros ? [= <-].
    + intros ? [= <-] ? ?. intuition congruence.
    + split.
      * intros [d Hd]. apply list_elem_of_singleton in Hd. done.
      * intros (? & [= <-] & ? & ?). intuition congruence.
Qed.

(** C7, as amended.  [updateSsoConnectorIdpInitiatedAuthConfig] looks the
    application up and validates it if and only if [defaultApplicationId] is
    given and is not the empty string.  An update without it, or with the
    empty string, goes straight to the repository update; otherwise the
    lookup comes first, its failure and a failed type check end the
    operation, and a first-party [Traditional] application lets the
    repository update run. *)
Theorem updateSsoConnectorIdpInitiatedAuthConfig_validates_iff_nonempty
    (connectorId : string) (set : AuthConfigPatch) (w : W) :
  let o := exec h (updateSsoConnectorIdpInitiatedAuthConfig connectorId set) w in
  let update_call := updateIdpInitiatedAuthConfig set connectorId replace in
  ((∃ id, findApplicationById id ∈ trace o) ↔
     ∃ id, set_defaultApplicationId set = Some id ∧ id ≠ "")
  ∧ (set_defaultApplicationId set = None ∨ set_defaultApplicationId set = Some "" →
       trace o = [update_call]
       ∧ result o = (h update_call w).1
       ∧ world o = (h update_call w).2)
  ∧ (∀ id lookup w1,
       set_defaultApplicationId set = Some id → id ≠ "" →
       h (findApplicationById id) w = (lookup, w1) →
       (∀ e, lookup = inl e → result o = inl e ∧ trace o = [findApplicationById id])
       ∧ (∀ application, lookup = inr application →
            type application ≠ Traditional ∨ isThirdParty application = true →
            result o = inl (Request (mkRequestError
                         "connector.saml_idp_initiated_auth_invalid_application_type" None))
            ∧ trace o = [findApplicationById id])
       ∧ (∀ application, lookup = inr application →
            type application = Traditional → isThirdParty application = false →
            trace o = [findApplicationById id; update_call]
            ∧ result o = (h update_call w1).1
            ∧ world o = (h update_call w1).2)).
Proof.
  cbn zeta. unfold updateSsoConnectorIdpInitiatedAuthConfig.
  rewrite exec_bind.
  destruct (set_defaultApplicationId set) as [id|] eqn:Hset; cbn [truthy_opt].
  2:{ cbn [exec result world trace app].
      rewrite (exec_await h (updateIdpInitiatedAuthConfig _ _ _)). cbn.
      split_and!; [|done|done].
      split; [|by intros (? & ? & _)].
      intros [id Hid]. apply list_elem_of_singleton in Hid. done. }
  unfold truthy. destruct (String.eqb_spec id "") as [->|Hne]; cbn [negb].
  { cbn [exec result world trace app].
    rewrite (exec_await h (updateIdpInitiatedAuthConfig _ _ _)). cbn.
    split_and!; [|done|by intros ? ? ? [= <-]].
    split; [|by intros (? & [= <-] & ?)].
    intros [id Hid]. apply list_elem_of_singleton in Hid. done. }
  rewrite exec_validate.
  destruct (h (findApplicationById id) w) as [lookup w1] eqn:Hh.
  cbn [result world trace fst snd].
  assert (Hchoice : ∀ application, isFirstPartyTraditional application = true ↔
            type application = Traditional ∧ isThirdParty application = false).
  { intros application. unfold isFirstPartyTraditional.
    rewrite andb_true_iff, negb_true_iff.
    destruct (type application); cbn; intuition congruence. }
  split_and!.
  - split; [by exists id|]. intros _. exists id.
    destruct lookup as [e|application]; [apply list_elem_of_here|].
    destruct (isFirstPartyTraditional application); apply list_elem_of_here.
  - intros [?|[= ->]]; done.
  - intros ? lookup' w1' [= <-] _ Hh'. rewrite Hh in Hh'. injection Hh' as <- <-.
    destruct lookup as [e|application].
    { split_and!; [by intros ? [= <-]|done|done]. }
    specialize (Hchoice application).
    destruct (isFirstPartyTraditional application) eqn:Hok.
    + rewrite (exec_await h (updateIdpInitiatedAuthConfig _ _ _)). cbn.
      split_and!; [done| |by intros ? [= <-]].
      intros ? [= <-] [?|?]; intuition congruence.
    + cbn. split_and!; [done|by intros ? [= <-]|].
      intros ? [= <-] ? ?. intuition congruence.
Qed.

End AuthConfig.

(** ** SAML session creation *)

Section Session.
Variable defaultIdPInitiatedSamlSsoSessionTtl : Z.
Variable Date_parse : string → TimeValue.
Context {W : Type} (h : handler W).

End Session.

(** ** The query of the sign-in URL *)

Lemma standardEntries_keys app uri cid :
  (standardEntries app uri cid).*1 = standardKeys.
Proof. reflexivity. Qed.

Lemma standardKeys_NoDup : NoDup standardKeys.
Proof. apply NoDup_ListNoDup. repeat constructor; cbn; intuition discriminate. Qed.

Lemma obj_get_standard_scope app uri cid :
  obj_get "scope" (standardEntries app uri cid) = None.
Proof. reflexivity. Qed.

Lemma obj_get_last_filter_excluded excluded (o : JsObject) :
  obj_get_last excluded
    (List.filter (fun p => negb (String.eqb (fst p) excluded)) o) = None.
Proof.
  apply obj_get_last_None. intros [[k v] [-> Hin]]%list_elem_of_fmap.
  apply elem_of_List_filter in Hin as [_ Hne]. cbn in Hne.
  by rewrite String.eqb_refl in Hne.
Qed.

(** Reading the record handed to [URLSearchParams]: a property of
    [extraParams] wins over a standard entry of the same name. *)
Lemma obj_get_queryRecord k app uri cid (extraParams : JsObject) :
  NoDup extraParams.*1 →
  obj_get k (queryRecord app uri cid extraParams)
  = match obj_get k extraParams with
    | Some v => Some v
    | None => obj_get k (standardEntries app uri cid)
    end.
Proof.
  intros Hnd. unfold queryRecord.
  rewrite obj_get_literal, obj_get_last_app, !obj_get_last_NoDup; [done| |done].
  rewrite standardEntries_keys. apply standardKeys_NoDup.
Qed.

Lemma queryRecord_no_scope app uri cid (ap : JsObject) :
  "scope" ∉ (queryRecord app uri cid (obj_rest "scope" ap)).*1.
Proof.
  apply obj_get_None. unfold queryRecord, obj_rest.
  rewrite obj_get_literal, obj_get_last_app.
  rewrite (obj_get_last_NoDup _ (obj_literal _)) by apply obj_literal_NoDup.
  rewrite obj_get_literal, obj_get_last_filter_excluded.
  rewrite obj_get_last_NoDup by (rewrite standardEntries_keys; apply standardKeys_NoDup).
  apply obj_get_standard_scope.
Qed.

Lemma truthy_true (s : string) : truthy s = true ↔ s ≠ "".
Proof. unfold truthy. by destruct (String.eqb_spec s ""). Qed.

Lemma obj_get_extraParams k (ap : JsObject) :
  NoDup ap.*1 →
  obj_get k (obj_rest "scope" ap)
  = if String.eqb k "scope" then None else obj_get k ap.
Proof. apply obj_get_rest. Qed.

Lemma obj_rest_NoDup excluded (ap : JsObject) : NoDup (obj_rest excluded ap).*1.
Proof. apply obj_literal_NoDup. Qed.

Section SignIn.
Variable reservedScopes : list string.
Variable URL : Type.
Variable URL_new : string → option URL.
Context {W : Type} (h : handler W).

Lemma exec_resolveRedirectUri (cfg : SsoConnectorIdpInitiatedAuthConfig) (w : W) :
  let answered := h (findApplicationById (defaultApplicationId cfg)) w in
  exec h (resolveRedirectUri cfg) w
  = mkOutcome (inr (spec_resolvedRedirectUri cfg answered.1))
      (match redirectUri cfg with Some _ => w | None => answered.2 end)
      (match redirectUri cfg with
       | Some _ => []
       | None => [findApplicationById (defaultApplicationId cfg)]
       end).
Proof.
  cbn zeta. unfold resolveRedirectUri, spec_resolvedRedirectUri.
  destruct (redirectUri cfg) as [uri|]; [done|].
  unfold firstRegisteredRedirectUri.
  rewrite exec_bind, exec_trySafe, exec_bind,
    (exec_await h (findApplicationById (defaultApplicationId cfg))).
  destruct (h (findApplicationById (defaultApplicationId cfg)) w)
    as [[e|application] w1]; cbn; [done|].
  by destruct (head _).
Qed.

Lemma exec_signInUrl (issuer : string) (cfg : SsoConnectorIdpInitiatedAuthConfig) (w : W) :
  let answered := h (findApplicationById (defaultApplicationId cfg)) w in
  exec h (getIdpInitiatedSamlSsoSignInUrl reservedScopes URL URL_new issuer cfg) w
  = mkOutcome
      (match spec_resolvedRedirectUri cfg answered.1 with
       | Some uri =>
           if truthy uri then
             construct_URL URL URL_new
               (signInUrlText issuer (signInQuery reservedScopes cfg uri))
           else inl invalid_redirect_uri
       | None => inl invalid_redirect_uri
       end)
      (match redirectUri cfg with Some _ => w | None => answered.2 end)
      (match redirectUri cfg with
       | Some _ => []
       | None => [findApplicationById (defaultApplicationId cfg)]
       end).
Proof.
  cbn zeta. unfold getIdpInitiatedSamlSsoSignInUrl.
  rewrite exec_bind, exec_resolveRedirectUri. cbn [result world trace].
  destruct (spec_resolvedRedirectUri cfg _) as [uri|]; cbn [exec result world trace].
  - destruct (truthy uri); [rewrite exec_lift|]; cbn [exec result world trace];
      by rewrite app_nil_r.
  - by rewrite app_nil_r.
Qed.


Lemma exec_signInUrl_resolved issuer cfg w lookup w1 uri :
  h (findApplicationById (defaultApplicationId cfg)) w = (lookup, w1) →
  spec_resolvedRedirectUri cfg lookup = Some uri →
  uri ≠ "" →
  result (exec h (getIdpInitiatedSamlSsoSignInUrl reservedScopes URL URL_new issuer cfg) w)
  = construct_URL URL URL_new (signInUrlText issuer (signInQuery reservedScopes cfg uri)).
Proof.
  intros Hh Hres Hne. rewrite exec_signInUrl, Hh. cbn [result fst].
  rewrite Hres. by rewrite (proj2 (truthy_true uri) Hne).
Qed.


Lemma signInQuery_NoDup cfg uri : NoDup (signInQuery reservedScopes cfg uri).*1.
Proof.
  unfold signInQuery, URLSearchParams_append, URLSearchParams_new.
  rewrite fmap_app. apply NoDup_app. split_and!.
  - apply obj_literal_NoDup.
  - intros k Hk Hscope. apply list_elem_of_singleton in Hscope as ->.
    by apply queryRecord_no_scope in Hk.
  - apply NoDup_singleton.
Qed.

(** C1, as amended.  With a resolved redirect URI, and provided no key of
    [authParameters] is one of the five standard keys, the operation returns
    [new URL] of [issuer/auth?query] where the query holds, each key once:
    [client_id], [redirect_uri], [response_type=code], [prompt=login],
    [direct_sign_in=sso:connectorId], every [authParameters] entry except
    [scope] as it is, and a final [scope]. *)
Theorem getIdpInitiatedSamlSsoSignInUrl_query_without_collisions
    (issuer : string) (cfg : SsoConnectorIdpInitiatedAuthConfig)
    (w w1 : W) (lookup : Result Application) (uri : string) :
  h (findApplicationById (defaultApplicationId cfg)) w = (lookup, w1) →
  spec_resolvedRedirectUri cfg lookup = Some uri →
  uri ≠ "" →
  NoDup (authParameters cfg).*1 →
  (∀ k, k ∈ ["client_id"; "redirect_uri"; "response_type"; "prompt"; "direct_sign_in"] →
        k ∉ (authParameters cfg).*1) →
  ∃ record scope querystring,
    result (exec h (getIdpInitiatedSamlSsoSignInUrl reservedScopes URL URL_new issuer cfg) w)
    = construct_URL URL URL_new (issuer +:+ "/auth?" +:+ querystring)
    ∧ querystring = URLSearchParams_toString (record ++ [("scope", scope)])
    ∧ URLSearchParams_parse querystring = record ++ [("scope", scope)]
    ∧ NoDup (record ++ [("scope", scope)]).*1
    ∧ ∀ k v, (k, v) ∈ record ↔
        (k, v) ∈ [ ("client_id", defaultApplicationId cfg);
                   ("redirect_uri", uri);
                   ("response_type", "code");
                   ("prompt", "login");
                   ("direct_sign_in", "sso:" +:+ connectorId cfg) ]
        ∨ ((k, v) ∈ authParameters cfg ∧ k ≠ "scope").
Proof.
  intros Hh Hres Hne Hnd Hfree.
  exists (queryRecord (defaultApplicationId cfg) uri (connectorId cfg)
            (obj_rest "scope" (authParameters cfg))),
         (withReservedScopes reservedScopes
            (requestedScopes (obj_get "scope" (authParameters cfg)))),
         (URLSearchParams_toString (signInQuery reservedScopes cfg uri)).
  split_and!.
  - by rewrite (exec_signInUrl_resolved issuer cfg w lookup w1 uri).
  - done.
  - apply URLSearchParams_parse_toString.
  - apply (signInQuery_NoDup cfg uri).
  - intros k v.
    change [("client_id", defaultApplicationId cfg); ("redirect_uri", uri);
            ("response_type", "code"); ("prompt", "login");
            ("direct_sign_in", "sso:" +:+ connectorId cfg)]
      with (standardEntries (defaultApplicationId cfg) uri (connectorId cfg)).
    rewrite <- (obj_get_elem k v (queryRecord _ _ _ _)) by apply obj_literal_NoDup.
    rewrite <- (obj_get_elem k v (standardEntries _ _ _))
      by (rewrite standardEntries_keys; apply standardKeys_NoDup).
    rewrite <- (obj_get_elem k v (authParameters cfg)) by done.
    rewrite obj_get_queryRecord by apply obj_rest_NoDup.
    rewrite obj_get_extraParams by done.
    destruct (String.eqb_spec k "scope") as [->|Hk].
    { rewrite obj_get_standard_scope. intuition congruence. }
    destruct (obj_get k (authParameters cfg)) as [v'|] eqn:Hget.
    + assert (obj_get k (standardEntries (defaultApplicationId cfg) uri
                           (connectorId cfg)) = None) as ->.
      { apply obj_get_None. rewrite standardEntries_keys. intros Hstd.
        apply (Hfree k Hstd). apply obj_get_elem_1 in Hget.
        apply list_elem_of_fmap. by exists (k, v'). }
      intuition congruence.
    + intuition congruence.
Qed.

(** C10.  When [authParameters] has an entry whose key is one of the five
    standard query keys, the issued query holds that key once, with the value
    from [authParameters] in place of the standard one. *)
Theorem getIdpInitiatedSamlSsoSignInUrl_authParameters_override
    (issuer : string) (cfg : SsoConnectorIdpInitiatedAuthConfig)
    (w w1 : W) (lookup : Result Application) (uri k v : string) :
  h (findApplicationById (defaultApplicationId cfg)) w = (lookup, w1) →
  spec_resolvedRedirectUri cfg lookup = Some uri →
  uri ≠ "" →
  NoDup (authParameters cfg).*1 →
  (k, v) ∈ authParameters cfg →
  k ∈ ["client_id"; "redirect_uri"; "response_type"; "prompt"; "direct_sign_in"] →
  ∃ (params : URLSearchParams) (querystring : string),
    result (exec h (getIdpInitiatedSamlSsoSignInUrl reservedScopes URL URL_new issuer cfg) w)
    = construct_URL URL URL_new (issuer +:+ "/auth?" +:+ querystring)
    ∧ querystring = URLSearchParams_toString params
    ∧ URLSearchParams_parse querystring = params
    ∧ (k, v) ∈ params
    ∧ ∀ v', (k, v') ∈ params → v' = v.
Proof.
  intros Hh Hres Hne Hnd Hin Hstd.
  exists (signInQuery reservedScopes cfg uri),
         (URLSearchParams_toString (signInQuery reservedScopes cfg uri)).
  assert (Hk : k ≠ "scope").
  { intros ->. revert Hstd. rewrite !elem_of_cons, elem_of_nil. intuition discriminate. }
  assert (Hget : obj_get k (signInQuery reservedScopes cfg uri) = Some v).
  { unfold signInQuery, URLSearchParams_append, URLSearchParams_new.
    assert (Hrec : obj_get k (queryRecord (defaultApplicationId cfg) uri (connectorId cfg)
                                (obj_rest "scope" (authParameters cfg))) = Some v).
    { rewrite obj_get_queryRecord by apply obj_rest_NoDup.
      rewrite obj_get_extraParams by done.
      destruct (String.eqb_spec k "scope"); [done|].
      by rewrite (proj2 (obj_get_elem k v (authParameters cfg) Hnd) Hin). }
    apply obj_get_elem_1 in Hrec as Hmem.
    apply obj_get_elem; [apply (signInQuery_NoDup cfg uri)|].
    apply elem_of_app. by left. }
  split_and!.
  - by rewrite (exec_signInUrl_resolved issuer cfg w lookup w1 uri).
  - done.
  - apply URLSearchParams_parse_toString.
  - by apply obj_get_elem_1.
  - intros v' Hv'. apply obj_get_elem in Hv'; [|apply signInQuery_NoDup]. congruence.
Qed.

(** C8.  The [scope] value of the query is the join, by spaces, of a
    duplicate-free token list that holds exactly the reserved scopes and the
    tokens of the requested scope string split on spaces (none when no scope
    is given); splitting the value gives the tokens back.  The [scope] entry
    is the last of the query and the only one of that name. *)
Theorem getIdpInitiatedSamlSsoSignInUrl_scope
    (issuer : string) (cfg : SsoConnectorIdpInitiatedAuthConfig)
    (w w1 : W) (lookup : Result Application) (uri : string) :
  h (findApplicationById (defaultApplicationId cfg)) w = (lookup, w1) →
  spec_resolvedRedirectUri cfg lookup = Some uri →
  uri ≠ "" →
  let requested :=
    match obj_get "scope" (authParameters cfg) with
    | Some scope => str_split " " scope
    | None => []
    end in
  ∃ (others : URLSearchParams) (tokens : list string) (querystring : string),
    result (exec h (getIdpInitiatedSamlSsoSignInUrl reservedScopes URL URL_new issuer cfg) w)
    = construct_URL URL URL_new (issuer +:+ "/auth?" +:+ querystring)
    ∧ querystring
      = URLSearchParams_toString (others ++ [("scope", str_join " " tokens)])
    ∧ URLSearchParams_parse querystring = others ++ [("scope", str_join " " tokens)]
    ∧ ("scope" ∉ others.*1)
    ∧ str_join " " tokens = withReservedScopes reservedScopes requested
    ∧ NoDup tokens
    ∧ (∀ t, t ∈ tokens ↔ t ∈ reservedScopes ∨ t ∈ requested)
    ∧ Forall (fun t => str_contains " " t = false) requested
    ∧ (Forall (fun t => str_contains " " t = false) reservedScopes →
       tokens ≠ [] →
       str_split " " (str_join " " tokens) = tokens).
Proof.
  intros Hh Hres Hne requested.
  exists (queryRecord (defaultApplicationId cfg) uri (connectorId cfg)
            (obj_rest "scope" (authParameters cfg))),
         (unique (reservedScopes ++ requested)),
         (URLSearchParams_toString (signInQuery reservedScopes cfg uri)).
  assert (Hfree : Forall (fun t => str_contains " " t = false) requested).
  { unfold requested. destruct (obj_get "scope" (authParameters cfg)); [|constructor].
    apply str_split_tokens_free. }
  split_and!.
  - by rewrite (exec_signInUrl_resolved issuer cfg w lookup w1 uri).
  - done.
  - apply URLSearchParams_parse_toString.
  - apply queryRecord_no_scope.
  - done.
  - apply unique_NoDup.
  - intros t. by rewrite elem_of_unique, elem_of_app.
  - done.
  - intros Hreserved Hnonempty. apply str_split_join; [done|].
    apply Forall_forall. intros t [Ht|Ht]%elem_of_unique%elem_of_app.
    + by eapply Forall_forall in Hreserved.
    + by eapply Forall_forall in Hfree.
Qed.
End SignIn.

(** * The operations on the in-memory tenant *)

(** A page of three connectors, one of them of an unregistered provider: the
    count stays 4. *)
Lemma getSsoConnectors_witness :
  Sample.tenant (findAll (Some 3) None) Sample.world0
  = (inr (4, [Sample.c1; Sample.c2; Sample.c3]), Sample.world0)
  ∧ ∃ supported,
      result (exec Sample.tenant (getSsoConnectors Sample.factories (Some 3) None)
                Sample.world0) = inr (4, supported)
      ∧ trace (exec Sample.tenant (getSsoConnectors Sample.factories (Some 3) None)
                 Sample.world0) = [findAll (Some 3) None]
      ∧ supported
        = List.filter
            (fun c => bool_decide (is_Some (Sample.factories !! providerName c)))
            [Sample.c1; Sample.c2; Sample.c3]
      ∧ (∀ c, c ∈ supported ↔
              c ∈ [Sample.c1; Sample.c2; Sample.c3]
              ∧ is_Some (Sample.factories !! providerName c))
      ∧ sublist supported [Sample.c1; Sample.c2; Sample.c3]
      ∧ (length supported ≤ 3)%nat.
Proof.
  split; [reflexivity|].
  apply (getSsoConnectors_count_and_supported_page Sample.factories Sample.tenant
           (Some 3) None Sample.world0 Sample.world0 4
           [Sample.c1; Sample.c2; Sample.c3]).
  reflexivity.
Defined.

(** The page holds fewer supported connectors than the count. *)
Example getSsoConnectors_page_shorter_than_count :
  result (exec Sample.tenant (getSsoConnectors Sample.factories (Some 3) None) Sample.world0)
  = inr (4, [Sample.c1; Sample.c2]).
Proof. reflexivity. Qed.

(** Four persisted connectors: one without domains, one of an unregistered
    provider, one whose config the guard refuses, and one that is available. *)
Lemma getAvailableSsoConnectors_witness :
  Sample.tenant (findAll None None) Sample.world0
  = (inr (4, [Sample.c1; Sample.c2; Sample.c3; Sample.c4]), Sample.world0)
  ∧ ∃ available,
      result (exec Sample.tenant (getAvailableSsoConnectors Sample.factories)
                Sample.world0) = inr available
      ∧ (∀ c, c ∈ available ↔
              c ∈ [Sample.c1; Sample.c2; Sample.c3; Sample.c4]
              ∧ ∃ factory, Sample.factories !! providerName c = Some factory
                           ∧ configGuard factory (config c) = true
                           ∧ domains c ≠ [])
      ∧ (∀ c, domains c = [] → c ∉ available)
      ∧ sublist available [Sample.c1; Sample.c2; Sample.c3; Sample.c4].
Proof.
  split; [reflexivity|].
  apply (getAvailableSsoConnectors_iff Sample.factories Sample.tenant
           Sample.world0 Sample.world0 4
           [Sample.c1; Sample.c2; Sample.c3; Sample.c4]).
  reflexivity.
Defined.

Example getAvailableSsoConnectors_only_c2 :
  result (exec Sample.tenant (getAvailableSsoConnectors Sample.factories) Sample.world0)
  = inr [Sample.c2].
Proof. reflexivity. Qed.

(** A first-party traditional application: the configuration is inserted. *)
Lemma createSsoConnectorIdpInitiatedAuthConfig_witness :
  let data := mkAuthConfig "c2" "a1" None [] in
  Sample.tenant (findApplicationById "a1") Sample.world0 = (inr Sample.a1, Sample.world0)
  ∧ type Sample.a1 = Traditional
  ∧ isThirdParty Sample.a1 = false
  ∧ trace (exec Sample.tenant (createSsoConnectorIdpInitiatedAuthConfig data) Sample.world0)
    = [findApplicationById "a1"; insertIdpInitiatedAuthConfig data]
  ∧ result (exec Sample.tenant (createSsoConnectorIdpInitiatedAuthConfig data) Sample.world0)
    = inr data.
Proof.
  cbn zeta. split_and!; [reflexivity..| |].
  - destruct (createSsoConnectorIdpInitiatedAuthConfig_validates_then_inserts
                Sample.tenant (mkAuthConfig "c2" "a1" None []) Sample.world0 Sample.world0
                (inr Sample.a1) eq_refl) as (_ & _ & accepted & _).
    apply (accepted Sample.a1); reflexivity.
  - reflexivity.
Defined.

(** Moving the configuration to a single-page application is refused. *)
Lemma updateSsoConnectorIdpInitiatedAuthConfig_witness :
  let set := mkPatch (Some "a2") None None in
  Sample.tenant (findApplicationById "a2") Sample.world0 = (inr Sample.a2, Sample.world0)
  ∧ type Sample.a2 ≠ Traditional
  ∧ result (exec Sample.tenant (updateSsoConnectorIdpInitiatedAuthConfig "c2" set)
              Sample.world0)
    = inl (Request (mkRequestError
             "connector.saml_idp_initiated_auth_invalid_application_type" None))
  ∧ trace (exec Sample.tenant (updateSsoConnectorIdpInitiatedAuthConfig "c2" set)
             Sample.world0)
    = [findApplicationById "a2"].
Proof.
  cbn zeta. split; [reflexivity|]. split; [discriminate|].
  destruct (updateSsoConnectorIdpInitiatedAuthConfig_validates_iff_nonempty
              Sample.tenant "c2" (mkPatch (Some "a2") None None) Sample.world0)
    as (_ & _ & validated).
  destruct (validated "a2" (inr Sample.a2) Sample.world0 eq_refl) as (_ & rejected & _);
    [discriminate | reflexivity |].
  apply (rejected Sample.a2); [reflexivity|]. left. discriminate.
Defined.

(** A partial update that carries [defaultApplicationId] as the empty string:
    no application with that id exists, yet no lookup is made and the
    repository update is the only call. *)
Lemma updateSsoConnectorIdpInitiatedAuthConfig_empty_id_not_validated :
  let set := mkPatch (Some "") None None in
  set_defaultApplicationId set = Some ""
  ∧ Sample.tenant (findApplicationById "") Sample.world0 = (inl Sample.not_exists, Sample.world0)
  ∧ trace (exec Sample.tenant (updateSsoConnectorIdpInitiatedAuthConfig "c2" set)
             Sample.world0)
    = [updateIdpInitiatedAuthConfig set "c2" replace].
Proof. cbn zeta. split_and!; reflexivity. Qed.





(** Extra parameters that collide with no standard key. *)
Lemma getIdpInitiatedSamlSsoSignInUrl_query_witness :
  let cfg := mkAuthConfig "c1" "a1" (Some "https://cb")
               [("scope", "a b"); ("resource", "https://api.example")] in
  Sample.tenant (findApplicationById "a1") Sample.world0 = (inr Sample.a1, Sample.world0)
  ∧ spec_resolvedRedirectUri cfg (inr Sample.a1) = Some "https://cb"
  ∧ "https://cb" ≠ ""
  ∧ NoDup (authParameters cfg).*1
  ∧ (∀ k, k ∈ ["client_id"; "redirect_uri"; "response_type"; "prompt"; "direct_sign_in"] →
          k ∉ (authParameters cfg).*1)
  ∧ ∃ record scope querystring,
      result (exec Sample.tenant
                (getIdpInitiatedSamlSsoSignInUrl Sample.reservedScopes string Sample.URL_new
                   "https://issuer.example" cfg) Sample.world0)
      = construct_URL string Sample.URL_new ("https://issuer.example" +:+ "/auth?" +:+ querystring)
      ∧ querystring = URLSearchParams_toString (record ++ [("scope", scope)])
      ∧ URLSearchParams_parse querystring = record ++ [("scope", scope)]
      ∧ NoDup (record ++ [("scope", scope)]).*1
      ∧ ∀ k v, (k, v) ∈ record ↔
          (k, v) ∈ [ ("client_id", "a1");
                     ("redirect_uri", "https://cb");
                     ("response_type", "code");
                     ("prompt", "login");
                     ("direct_sign_in", "sso:c1") ]
          ∨ ((k, v) ∈ authParameters cfg ∧ k ≠ "scope").
Proof.
  cbn zeta.
  assert (Hnd : NoDup ["scope"; "resource"]).
  { apply NoDup_ListNoDup. repeat constructor; cbn; intuition discriminate. }
  assert (Hfree : ∀ k : string,
            k ∈ ["client_id"; "redirect_uri"; "response_type"; "prompt"; "direct_sign_in"] →
            k ∉ ["scope"; "resource"]).
  { intros k Hk Hin. apply list_elem_of_In in Hk, Hin. cbn in Hk, Hin.
    intuition (subst; discriminate). }
  split; [reflexivity|]. split; [reflexivity|]. split; [discriminate|].
  split; [exact Hnd|]. split; [exact Hfree|].
  exact (getIdpInitiatedSamlSsoSignInUrl_query_without_collisions
           Sample.reservedScopes string Sample.URL_new Sample.tenant
           "https://issuer.example"
           (mkAuthConfig "c1" "a1" (Some "https://cb")
              [("scope", "a b"); ("resource", "https://api.example")])
           Sample.world0 Sample.world0 (inr Sample.a1) "https://cb"
           eq_refl eq_refl ltac:(discriminate) Hnd Hfree).
Defined.

(** [authParameters] with a [client_id] of its own: the query carries it in
    place of [defaultApplicationId]. *)
Lemma getIdpInitiatedSamlSsoSignInUrl_client_id_replaced :
  let cfg := mkAuthConfig "c1" "a1" (Some "https://cb") [("client_id", "x")] in
  defaultApplicationId cfg = "a1"
  ∧ signInQuery Sample.reservedScopes cfg "https://cb"
    = [ ("client_id", "x");
        ("redirect_uri", "https://cb");
        ("response_type", "code");
        ("prompt", "login");
        ("direct_sign_in", "sso:c1");
        ("scope", "openid offline_access profile") ]
  ∧ (("client_id", defaultApplicationId cfg)
     ∉ signInQuery Sample.reservedScopes cfg "https://cb")
  ∧ result (exec Sample.tenant
              (getIdpInitiatedSamlSsoSignInUrl Sample.reservedScopes string Sample.URL_new
                 "https://issuer.example" cfg) Sample.world0)
    = inr ("https://issuer.example/auth?client_id=x&redirect_uri=https%3A%2F%2Fcb"
           +:+ "&response_type=code&prompt=login&direct_sign_in=sso%3Ac1"
           +:+ "&scope=openid+offline_access+profile").
Proof.
  cbn zeta. split_and!; [reflexivity..| |reflexivity].
  intros Hin. apply list_elem_of_In in Hin. vm_compute in Hin.
  intuition discriminate.
Qed.

(** Two standard keys overridden at once. *)
Lemma getIdpInitiatedSamlSsoSignInUrl_override_witness :
  let cfg := mkAuthConfig "c1" "a1" (Some "https://cb")
               [("prompt", "consent"); ("client_id", "x")] in
  Sample.tenant (findApplicationById "a1") Sample.world0 = (inr Sample.a1, Sample.world0)
  ∧ spec_resolvedRedirectUri cfg (inr Sample.a1) = Some "https://cb"
  ∧ NoDup (authParameters cfg).*1
  ∧ ("client_id", "x") ∈ authParameters cfg
  ∧ ∃ (params : URLSearchParams) (querystring : string),
      result (exec Sample.tenant
                (getIdpInitiatedSamlSsoSignInUrl Sample.reservedScopes string Sample.URL_new
                   "https://issuer.example" cfg) Sample.world0)
      = construct_URL string Sample.URL_new ("https://issuer.example" +:+ "/auth?" +:+ querystring)
      ∧ querystring = URLSearchParams_toString params
      ∧ URLSearchParams_parse querystring = params
      ∧ ("client_id", "x") ∈ params
      ∧ ∀ v', ("client_id", v') ∈ params → v' = "x".
Proof.
  cbn zeta.
  assert (Hnd : NoDup ["prompt"; "client_id"]).
  { apply NoDup_ListNoDup. repeat constructor; cbn; intuition discriminate. }
  assert (Hin : ("client_id", "x") ∈ [("prompt", "consent"); ("client_id", "x")]).
  { apply list_elem_of_further, list_elem_of_here. }
  split; [reflexivity|]. split; [reflexivity|]. split; [exact Hnd|]. split; [exact Hin|].
  exact (getIdpInitiatedSamlSsoSignInUrl_authParameters_override
           Sample.reservedScopes string Sample.URL_new Sample.tenant
           "https://issuer.example"
           (mkAuthConfig "c1" "a1" (Some "https://cb")
              [("prompt", "consent"); ("client_id", "x")])
           Sample.world0 Sample.world0 (inr Sample.a1) "https://cb" "client_id" "x"
           eq_refl eq_refl ltac:(discriminate) Hnd Hin (list_elem_of_here _ _)).
Defined.

(** Requesting the scope [custom]. *)
Lemma getIdpInitiatedSamlSsoSignInUrl_scope_witness :
  let cfg := mkAuthConfig "c1" "a1" (Some "https://cb") [("scope", "custom")] in
  Sample.tenant (findApplicationById "a1") Sample.world0 = (inr Sample.a1, Sample.world0)
  ∧ spec_resolvedRedirectUri cfg (inr Sample.a1) = Some "https://cb"
  ∧ ∃ (others : URLSearchParams) (tokens : list string) (querystring : string),
      result (exec Sample.tenant
                (getIdpInitiatedSamlSsoSignInUrl Sample.reservedScopes string Sample.URL_new
                   "https://issuer.example" cfg) Sample.world0)
      = construct_URL string Sample.URL_new ("https://issuer.example" +:+ "/auth?" +:+ querystring)
      ∧ querystring
        = URLSearchParams_toString (others ++ [("scope", str_join " " tokens)])
      ∧ URLSearchParams_parse querystring = others ++ [("scope", str_join " " tokens)]
      ∧ ("scope" ∉ others.*1)
      ∧ str_join " " tokens = withReservedScopes Sample.reservedScopes ["custom"]
      ∧ NoDup tokens
      ∧ (∀ t, t ∈ tokens ↔ t ∈ Sample.reservedScopes ∨ t ∈ ["custom"])
      ∧ Forall (fun t => str_contains " " t = false) ["custom"]
      ∧ (Forall (fun t => str_contains " " t = false) Sample.reservedScopes →
         tokens ≠ [] →
         str_split " " (str_join " " tokens) = tokens).
Proof.
  cbn zeta. split; [reflexivity|]. split; [reflexivity|].
  exact (getIdpInitiatedSamlSsoSignInUrl_scope
           Sample.reservedScopes string Sample.URL_new Sample.tenant
           "https://issuer.example"
           (mkAuthConfig "c1" "a1" (Some "https://cb") [("scope", "custom")])
           Sample.world0 Sample.world0 (inr Sample.a1) "https://cb"
           eq_refl eq_refl ltac:(discriminate)).
Defined.

(** The end-to-end example of the specification. *)
Example getIdpInitiatedSamlSsoSignInUrl_end_to_end :
  result (exec Sample.tenant
            (getIdpInitiatedSamlSsoSignInUrl Sample.reservedScopes string Sample.URL_new
               "https://issuer.example"
               (mkAuthConfig "c1" "a1" (Some "https://cb") [("scope", "a b")]))
            Sample.world0)
  = inr ("https://issuer.example/auth?client_id=a1&redirect_uri=https%3A%2F%2Fcb"
         +:+ "&response_type=code&prompt=login&direct_sign_in=sso%3Ac1"
         +:+ "&scope=openid+offline_access+profile+a+b").
Proof. reflexivity. Qed.

(** Array-index keys of [authParameters] come first in the query. *)
Example getIdpInitiatedSamlSsoSignInUrl_key_order :
  signInQuery Sample.reservedScopes
    (mkAuthConfig "c1" "a1" None [("7", "seven"); ("resource", "r"); ("3", "three")])
    "https://cb"
  = [ ("3", "three"); ("7", "seven");
      ("client_id", "a1"); ("redirect_uri", "https://cb"); ("response_type", "code");
      ("prompt", "login"); ("direct_sign_in", "sso:c1"); ("resource", "r");
      ("scope", "openid offline_access profile") ].
Proof. reflexivity. Qed.

(** * Further properties of the operations *)

(** ** Connector discovery: calls made, failures, and how the operations agree *)

Section DiscoveryCalls.
Variable ssoConnectorFactories : gmap string SsoConnectorFactory.
Context {W : Type} (h : handler W).

Lemma exec_getSsoConnectors (limit offset : option Z) (w : W) :
  exec h (getSsoConnectors ssoConnectorFactories limit offset) w
  = mkOutcome
      (match (h (findAll limit offset) w).1 with
       | inl e => inl e
       | inr (count, entities) =>
           inr (count, List.filter (isSupportedSsoConnector ssoConnectorFactories) entities)
       end)
      (h (findAll limit offset) w).2
      [findAll limit offset].
Proof.
  unfold getSsoConnectors.
  rewrite exec_bind, (exec_await h (findAll limit offset)).
  by destruct (h (findAll limit offset) w) as [[e|[count entities]] w1].
Qed.

Lemma exec_getAvailableSsoConnectors (w : W) :
  exec h (getAvailableSsoConnectors ssoConnectorFactories) w
  = mkOutcome
      (match (h (findAll None None) w).1 with
       | inl e => inl e
       | inr (_, entities) =>
           inr (List.filter
                  (fun c => match ssoConnectorFactories !! providerName c with
                            | Some f => configGuard f (config c)
                                        && (0 <? length (domains c))%nat
                            | None => false
                            end)
                  (List.filter (isSupportedSsoConnector ssoConnectorFactories) entities))
       end)
      (h (findAll None None) w).2
      [findAll None None].
Proof.
  unfold getAvailableSsoConnectors.
  rewrite exec_bind, exec_getSsoConnectors.
  destruct (h (findAll None None) w) as [[e|[count entities]] w1]; cbn; [done|].
  rewrite exec_lift, isAvailable_supported; [done|].
  apply Forall_forall. intros c Hc. by apply elem_of_List_filter in Hc as [_ ?].
Qed.

Lemma exec_getSsoConnectorById (id : string) (w : W) :
  exec h (getSsoConnectorById ssoConnectorFactories id) w
  = mkOutcome
      (match (h (findById id) w).1 with
       | inl e => inl e
       | inr c =>
           if isSupportedSsoConnector ssoConnectorFactories c then inr c
           else inl (Request (mkRequestError "connector.not_found" (Some 404)))
       end)
      (h (findById id) w).2
      [findById id].
Proof.
  unfold getSsoConnectorById.
  rewrite exec_bind, (exec_await h (findById id)).
  destruct (h (findById id) w) as [[e|c] w1]; cbn [result world trace fst snd];
    [done|]. rewrite exec_bind, exec_assertThat. cbn.
  by destruct (isSupportedSsoConnector ssoConnectorFactories c).
Qed.

Lemma isSupportedSsoConnector_true (c : SsoConnector) :
  isSupportedSsoConnector ssoConnectorFactories c = true
  ↔ is_Some (ssoConnectorFactories !! providerName c).
Proof. unfold isSupportedSsoConnector. apply bool_decide_eq_true. Qed.

(** X1.  [getSsoConnectors] makes exactly one repository call, [findAll]
    with the limit and offset it was given, leaves the repository as that
    call left it, and fails exactly when the call fails, with the call's
    error. *)
Theorem getSsoConnectors_single_read (limit offset : option Z) (w : W) :
  let o := exec h (getSsoConnectors ssoConnectorFactories limit offset) w in
  let answered := h (findAll limit offset) w in
  trace o = [findAll limit offset]
  ∧ world o = answered.2
  ∧ (∀ e, result o = inl e ↔ answered.1 = inl e).
Proof.
  cbn zeta. rewrite exec_getSsoConnectors.
  destruct (h (findAll limit offset) w) as [[e'|[count entities]] w1]; cbn;
    (split_and!; [done..|]); intros e; split; intros [= ->]; done.
Qed.

(** X2.  [getAvailableSsoConnectors] always reads the whole table: its
    only call is [findAll] with neither limit nor offset.  It fails exactly
    when that call fails, with the call's error: looking up the factory of
    a connector never raises an error of its own. *)
Theorem getAvailableSsoConnectors_reads_whole_table (w : W) :
  let o := exec h (getAvailableSsoConnectors ssoConnectorFactories) w in
  let answered := h (findAll None None) w in
  trace o = [findAll None None]
  ∧ world o = answered.2
  ∧ (∀ e, result o = inl e ↔ answered.1 = inl e).
Proof.
  cbn zeta. rewrite exec_getAvailableSsoConnectors.
  destruct (h (findAll None None) w) as [[e'|[count entities]] w1]; cbn;
    (split_and!; [done..|]); intros e; split; intros [= ->]; done.
Qed.

(** X3.  What [getAvailableSsoConnectors] returns is a sublist of what
    [getSsoConnectors] returns, without paging, from the same repository
    state: exactly the supported connectors whose config the guard accepts
    and that have a domain. *)
Theorem getAvailableSsoConnectors_sublist_of_supported
    (w : W) (available : list SsoConnector) :
  result (exec h (getAvailableSsoConnectors ssoConnectorFactories) w) = inr available →
  ∃ count supported,
    result (exec h (getSsoConnectors ssoConnectorFactories None None) w)
    = inr (count, supported)
    ∧ sublist available supported
    ∧ (∀ c, c ∈ available ↔
            c ∈ supported
            ∧ (∃ factory, ssoConnectorFactories !! providerName c = Some factory
                          ∧ configGuard factory (config c) = true)
            ∧ domains c ≠ []).
Proof.
  rewrite exec_getAvailableSsoConnectors, exec_getSsoConnectors.
  destruct (h (findAll None None) w) as [[e|[count entities]] w1]; cbn; [done|].
  intros [= <-]. eexists _, _. split; [done|]. split; [apply filter_sublist|].
  intros c. rewrite elem_of_List_filter. cbv beta.
  destruct (ssoConnectorFactories !! providerName c) as [f|] eqn:Hf; cbv beta iota.
  - rewrite andb_true_iff. split.
    + intros (Hin & Hcfg & Hdom). split_and!; [done|by exists f|].
      intros Hnil. by rewrite Hnil in Hdom.
    + intros (Hin & (f' & [= <-] & Hcfg) & Hdom). split_and!; [done..|].
      by destruct (domains c).
  - split; [by intros [_ ?] | by intros (_ & (? & ? & _) & _)].
Qed.

(** X4.  Listing and fetching agree on which records are visible: a
    record that the repository returns both in a page and by its id is kept
    by [getSsoConnectors] if and only if [getSsoConnectorById] returns
    it. *)
Theorem getSsoConnectors_agrees_with_getSsoConnectorById
    (limit offset : option Z) (id : string) (c : SsoConnector)
    (w w1 w2 w3 : W) (count : Z) (entities : list SsoConnector) :
  h (findAll limit offset) w = (inr (count, entities), w1) →
  c ∈ entities →
  h (findById id) w2 = (inr c, w3) →
  (∃ supported,
      result (exec h (getSsoConnectors ssoConnectorFactories limit offset) w)
      = inr (count, supported)
      ∧ c ∈ supported)
  ↔ result (exec h (getSsoConnectorById ssoConnectorFactories id) w2) = inr c.
Proof.
  intros Hall Hin Hone.
  rewrite exec_getSsoConnectors, exec_getSsoConnectorById, Hall, Hone. cbn.
  destruct (isSupportedSsoConnector ssoConnectorFactories c) eqn:Hc.
  - split; [done|]. intros _. eexists. split; [done|].
    by apply elem_of_List_filter.
  - split; [|done]. intros (supported & [= <-] & Hmem).
    apply elem_of_List_filter in Hmem as [_ Hmem]. congruence.
Qed.
(** X13.  [getSsoConnectorById] makes one call, [findById], whatever the
    answer, and has one check, on the provider of the record it got: it
    raises [connector.not_found] with status 404 when the provider has no
    registered capability and returns the record otherwise.  It has no case
    of its own for an id without a record: an error with which [findById]
    rejects is passed on as it is. *)
Theorem getSsoConnectorById_checks_provider_of_record
    (id : string) (w w' : W) (answered : Result SsoConnector) :
  h (findById id) w = (answered, w') →
  let o := exec h (getSsoConnectorById ssoConnectorFactories id) w in
  let not_found := inl (Request (mkRequestError "connector.not_found" (Some 404))) in
  trace o = [findById id]
  ∧ world o = w'
  ∧ (∀ e, answered = inl e → result o = inl e)
  ∧ (∀ c, answered = inr c →
          ssoConnectorFactories !! providerName c = None →
          result o = not_found)
  ∧ (∀ c, answered = inr c →
          is_Some (ssoConnectorFactories !! providerName c) →
          result o = inr c).
Proof.
  intros Hh. cbn zeta. rewrite exec_getSsoConnectorById, Hh.
  cbn [result world trace fst snd]. split_and!; [done|done| | |].
  - by intros e ->.
  - intros c -> Hnone.
    destruct (isSupportedSsoConnector ssoConnectorFactories c) eqn:Hc; [|done].
    apply isSupportedSsoConnector_true in Hc as [f Hf]. congruence.
  - intros c -> Hsome.
    by rewrite (proj2 (isSupportedSsoConnector_true c) Hsome).
Qed.

(** X12.  [getSsoConnectorById] makes one call, [findById], and checks the
    provider only: a connector whose config the guard refuses, or that has
    no domain, is returned by id although [getAvailableSsoConnectors] never
    lists it. *)
Theorem getSsoConnectorById_returns_unavailable
    (id : string) (c : SsoConnector) (factory : SsoConnectorFactory) (w w1 : W) :
  h (findById id) w = (inr c, w1) →
  ssoConnectorFactories !! providerName c = Some factory →
  configGuard factory (config c) = false ∨ domains c = [] →
  let o := exec h (getSsoConnectorById ssoConnectorFactories id) w in
  result o = inr c
  ∧ trace o = [findById id]
  ∧ world o = w1
  ∧ ∀ w' available,
      result (exec h (getAvailableSsoConnectors ssoConnectorFactories) w') = inr available →
      c ∉ available.
Proof.
  intros Hh Hf Hun. cbn zeta. rewrite exec_getSsoConnectorById, Hh.
  cbn [result world trace fst snd].
  rewrite (proj2 (isSupportedSsoConnector_true c)) by by exists factory.
  split_and!; [done..|].
  intros w' available. rewrite exec_getAvailableSsoConnectors.
  destruct (h (findAll None None) w') as [[e|[count entities]] w2]; cbn; [done|].
  intros [= <-] [_ Hc]%elem_of_List_filter. cbv beta in Hc. rewrite Hf in Hc.
  apply andb_true_iff in Hc as [Hcfg Hdom].
  destruct Hun as [Hun|Hun]; [congruence|]. by rewrite Hun in Hdom.
Qed.
End DiscoveryCalls.

(** ** Creating and updating a configuration *)

Section AuthConfigCalls.
Context {W : Type} (h : handler W).

Lemma exec_createSsoConnectorIdpInitiatedAuthConfig
    (data : SsoConnectorIdpInitiatedAuthConfig) (w : W) :
  let lookup := h (findApplicationById (defaultApplicationId data)) w in
  let insert := h (insertIdpInitiatedAuthConfig data) lookup.2 in
  exec h (createSsoConnectorIdpInitiatedAuthConfig data) w
  = match lookup.1 with
    | inl e => mkOutcome (inl e) lookup.2 [findApplicationById (defaultApplicationId data)]
    | inr application =>
        if isFirstPartyTraditional application then
          mkOutcome insert.1 insert.2
            [findApplicationById (defaultApplicationId data);
             insertIdpInitiatedAuthConfig data]
        else
          mkOutcome (inl invalid_application_type) lookup.2
            [findApplicationById (defaultApplicationId data)]
    end.
Proof.
  cbn zeta. unfold createSsoConnectorIdpInitiatedAuthConfig.
  rewrite exec_bind, (exec_await h (findApplicationById _)).
  destruct (h (findApplicationById (defaultApplicationId data)) w)
    as [[e|application] w1]; cbn [result world trace fst snd]; [done|].
  rewrite exec_bind, exec_assertThat. cbn [result world trace].
  destruct (isFirstPartyTraditional application); [|done].
  by rewrite (exec_await h (insertIdpInitiatedAuthConfig data)).
Qed.

Lemma exec_updateSsoConnectorIdpInitiatedAuthConfig
    (connectorId : string) (set : AuthConfigPatch) (w : W) :
  let update_call := updateIdpInitiatedAuthConfig set connectorId replace in
  exec h (updateSsoConnectorIdpInitiatedAuthConfig connectorId set) w
  = match set_defaultApplicationId set with
    | Some id =>
        if truthy id then
          let lookup := h (findApplicationById id) w in
          let update := h update_call lookup.2 in
          match lookup.1 with
          | inl e => mkOutcome (inl e) lookup.2 [findApplicationById id]
          | inr application =>
              if isFirstPartyTraditional application then
                mkOutcome update.1 update.2 [findApplicationById id; update_call]
              else
                mkOutcome (inl invalid_application_type) lookup.2
                  [findApplicationById id]
          end
        else mkOutcome (h update_call w).1 (h update_call w).2 [update_call]
    | None => mkOutcome (h update_call w).1 (h update_call w).2 [update_call]
    end.
Proof.
  cbn zeta. unfold updateSsoConnectorIdpInitiatedAuthConfig. rewrite exec_bind.
  destruct (set_defaultApplicationId set) as [id|]; cbn [truthy_opt].
  2:{ cbn [exec result world trace app].
      by rewrite (exec_await h (updateIdpInitiatedAuthConfig _ _ _)). }
  destruct (truthy id).
  2:{ cbn [exec result world trace app].
      by rewrite (exec_await h (updateIdpInitiatedAuthConfig _ _ _)). }
  rewrite exec_validate.
  destruct (h (findApplicationById id) w) as [[e|application] w1];
    cbn [result world trace fst snd]; [done|].
  destruct (isFirstPartyTraditional application); [|done].
  by rewrite (exec_await h (updateIdpInitiatedAuthConfig _ _ _)).
Qed.

(** X5.  Creation and update validate alike: for the same application id
    (not empty) and the same repository state, [update...] reaches its
    repository update exactly when [create...] reaches its repository
    insert; when they do not, both end with the same error after the same
    single lookup. *)
Theorem create_and_update_validate_alike
    (data : SsoConnectorIdpInitiatedAuthConfig)
    (connectorId : string) (set : AuthConfigPatch) (w : W) :
  set_defaultApplicationId set = Some (defaultApplicationId data) →
  defaultApplicationId data ≠ "" →
  let created := exec h (createSsoConnectorIdpInitiatedAuthConfig data) w in
  let updated := exec h (updateSsoConnectorIdpInitiatedAuthConfig connectorId set) w in
  let insert_call := insertIdpInitiatedAuthConfig data in
  let update_call := updateIdpInitiatedAuthConfig set connectorId replace in
  (insert_call ∈ trace created ↔ update_call ∈ trace updated)
  ∧ (insert_call ∉ trace created →
     result updated = result created
     ∧ trace updated = trace created
     ∧ world updated = world created
     ∧ ∃ e, result created = inl e).
Proof.
  intros Hset Hne. cbn zeta.
  rewrite exec_createSsoConnectorIdpInitiatedAuthConfig,
    exec_updateSsoConnectorIdpInitiatedAuthConfig, Hset.
  rewrite (proj2 (truthy_true _) Hne). cbn zeta.
  destruct (h (findApplicationById (defaultApplicationId data)) w)
    as [[e|application] w1]; cbn [fst snd].
  - cbn. split.
    + split; intros Hin; apply list_elem_of_singleton in Hin; done.
    + intros _. split_and!; [done..|]. by exists e.
  - destruct (isFirstPartyTraditional application); cbn.
    + split.
      * split; intros _; apply list_elem_of_further, list_elem_of_here.
      * intros Hnot. exfalso. apply Hnot.
        apply list_elem_of_further, list_elem_of_here.
    + split.
      * split; intros Hin; apply list_elem_of_singleton in Hin; done.
      * intros _. split_and!; [done..|]. by eexists.
Qed.
End AuthConfigCalls.

(** ** The sign-in URL *)

Lemma obj_literal_keys k (entries : list (string * string)) :
  k ∈ (obj_literal entries).*1 ↔ k ∈ entries.*1.
Proof.
  destruct (decide (k ∈ (obj_literal entries).*1)) as [Hin|Hin];
    destruct (decide (k ∈ entries.*1)) as [Hin'|Hin']; try done; exfalso.
  - apply obj_get_last_None in Hin'. rewrite <- obj_get_literal in Hin'.
    by apply obj_get_None in Hin'.
  - apply obj_get_None in Hin. rewrite obj_get_literal in Hin.
    by apply obj_get_last_None in Hin.
Qed.

(** Defining properties with new, ordinary names only appends them. *)
Lemma obj_fold_plain (entries : list (string * string)) (o : JsObject) :
  NoDup (o.*1 ++ entries.*1) →
  Forall (fun k => array_index k = None) entries.*1 →
  fold_left (fun o p => obj_set (fst p) (snd p) o) entries o = o ++ entries.
Proof.
  revert o. induction entries as [|[k v] entries IH]; intros o Hnd Hplain.
  - by rewrite app_nil_r.
  - cbn [fmap list_fmap fst] in Hnd, Hplain.
    apply Forall_cons in Hplain as [Hk Hplain].
    assert (Hfresh : k ∉ o.*1).
    { apply NoDup_app in Hnd as (_ & Hdisj & _). intros Hin.
      apply (Hdisj k Hin). apply list_elem_of_here. }
    cbn [fold_left fst snd]. unfold obj_set at 2.
    rewrite (proj2 (obj_has_false k o) Hfresh), Hk, IH.
    + by rewrite <- app_assoc.
    + rewrite fmap_app. cbn. by rewrite <- app_assoc.
    + done.
Qed.

Lemma obj_literal_plain (entries : list (string * string)) :
  NoDup entries.*1 →
  Forall (fun k => array_index k = None) entries.*1 →
  obj_literal entries = entries.
Proof. intros Hnd Hplain. unfold obj_literal. by rewrite obj_fold_plain. Qed.

Lemma filter_keys_sub excluded (o : JsObject) k :
  k ∈ (List.filter (fun p => negb (String.eqb (fst p) excluded)) o).*1 ↔
  k ∈ o.*1 ∧ k ≠ excluded.
Proof.
  rewrite !list_elem_of_fmap. split.
  - intros ([k' v] & -> & [Hin Hne]%elem_of_List_filter). cbn in *.
    split; [by exists (k', v)|]. intros ->. by rewrite String.eqb_refl in Hne.
  - intros [([k' v] & -> & Hin) Hne]. exists (k', v). split; [done|].
    apply elem_of_List_filter. split; [done|]. cbn in *.
    by destruct (String.eqb_spec k' excluded).
Qed.

Section SignInCalls.
Variable reservedScopes : list string.
Variable URL : Type.
Variable URL_new : string → option URL.
Context {W : Type} (h : handler W).

(** X6.  Accepting a configuration does not mean a sign-in URL can be
    built from it: [create...] does not look at redirect URIs, so for a
    first-party traditional application and a configuration from which no
    redirect URI resolves, the configuration is inserted and
    [getIdpInitiatedSamlSsoSignInUrl] for it raises
    [oidc.invalid_redirect_uri]. *)
Theorem accepted_configuration_may_lack_redirect_uri
    (issuer : string) (data : SsoConnectorIdpInitiatedAuthConfig)
    (application : Application) (w w1 : W) :
  h (findApplicationById (defaultApplicationId data)) w = (inr application, w1) →
  type application = Traditional →
  isThirdParty application = false →
  spec_resolvedRedirectUri data (inr application) = None
  ∨ spec_resolvedRedirectUri data (inr application) = Some "" →
  insertIdpInitiatedAuthConfig data
    ∈ trace (exec h (createSsoConnectorIdpInitiatedAuthConfig data) w)
  ∧ result (exec h (getIdpInitiatedSamlSsoSignInUrl reservedScopes URL URL_new
                      issuer data) w)
    = inl (Request (mkRequestError "oidc.invalid_redirect_uri" None)).
Proof.
  intros Hh Htype Hthird Hres. split.
  - rewrite exec_createSsoConnectorIdpInitiatedAuthConfig, Hh. cbn.
    unfold isFirstPartyTraditional. rewrite Htype, Hthird. cbn.
    apply list_elem_of_further, list_elem_of_here.
  - rewrite exec_signInUrl, Hh. cbn. by destruct Hres as [-> | ->].
Qed.

(** X7.  [getIdpInitiatedSamlSsoSignInUrl] only reads: it makes at most
    one call, the lookup of the default application.  Whatever that lookup
    throws is swallowed, for every behaviour of the repositories: the
    operation fails only with [oidc.invalid_redirect_uri] or with the
    [TypeError] of the [URL] constructor. *)
Theorem getIdpInitiatedSamlSsoSignInUrl_reads_once_and_swallows
    (issuer : string) (cfg : SsoConnectorIdpInitiatedAuthConfig) (w : W) :
  let o := exec h (getIdpInitiatedSamlSsoSignInUrl reservedScopes URL URL_new issuer cfg) w in
  (trace o = [] ∨ trace o = [findApplicationById (defaultApplicationId cfg)])
  ∧ (∀ e, result o = inl e →
          e = Request (mkRequestError "oidc.invalid_redirect_uri" None)
          ∨ e = TypeError "Invalid URL").
Proof.
  cbn zeta. rewrite exec_signInUrl. cbn [result world trace]. split_and!.
  - destruct (redirectUri cfg); [by left | by right].
  - intros e.
    destruct (spec_resolvedRedirectUri cfg _) as [uri|]; [|intros [= <-]; by left].
    destruct (truthy uri); [|intros [= <-]; by left].
    unfold construct_URL. destruct (URL_new _); [done|]. intros [= <-]. by right.
Qed.

(** X8.  Whatever [authParameters] holds (keys that collide with the
    standard ones, values with [&] or [=] in them, a [scope] or none) the
    text of the issued query parses back to a parameter list in which each
    key occurs once and whose keys are exactly the five standard keys,
    [scope] and the keys of [authParameters]. *)
Theorem getIdpInitiatedSamlSsoSignInUrl_query_well_formed
    (issuer : string) (cfg : SsoConnectorIdpInitiatedAuthConfig)
    (w w1 : W) (lookup : Result Application) (uri : string) :
  h (findApplicationById (defaultApplicationId cfg)) w = (lookup, w1) →
  spec_resolvedRedirectUri cfg lookup = Some uri →
  uri ≠ "" →
  ∃ (params : URLSearchParams) (querystring : string),
    result (exec h (getIdpInitiatedSamlSsoSignInUrl reservedScopes URL URL_new issuer cfg) w)
    = construct_URL URL URL_new (issuer +:+ "/auth?" +:+ querystring)
    ∧ URLSearchParams_parse querystring = params
    ∧ NoDup params.*1
    ∧ (∀ k, k ∈ params.*1 ↔
            k ∈ ["client_id"; "redirect_uri"; "response_type"; "prompt";
                 "direct_sign_in"; "scope"]
            ∨ k ∈ (authParameters cfg).*1).
Proof.
  intros Hh Hres Hne.
  exists (signInQuery reservedScopes cfg uri),
         (URLSearchParams_toString (signInQuery reservedScopes cfg uri)).
  split_and!.
  - by rewrite (exec_signInUrl_resolved reservedScopes URL URL_new h issuer cfg w lookup w1 uri).
  - apply URLSearchParams_parse_toString.
  - apply signInQuery_NoDup.
  - intros k. unfold signInQuery, URLSearchParams_append, URLSearchParams_new, queryRecord.
    rewrite fmap_app, elem_of_app, obj_literal_keys, fmap_app, elem_of_app.
    unfold obj_rest. rewrite obj_literal_keys, filter_keys_sub, standardEntries_keys.
    unfold standardKeys. cbn [fmap list_fmap fst].
    rewrite !elem_of_cons, !elem_of_nil.
    unfold QueryKey.ClientId, QueryKey.RedirectUri, QueryKey.ResponseType,
      QueryKey.Prompt, QueryKey.DirectSignIn, QueryKey.Scope.
    destruct (decide (k = "scope")); intuition congruence.
Qed.

(** X9.  The value the query carries for each key: for [scope] the
    normalized scope string; for any other key the value from
    [authParameters] when it has the key, else the standard value when the
    key is a standard one, else none. *)
Theorem getIdpInitiatedSamlSsoSignInUrl_value_of_each_key
    (issuer : string) (cfg : SsoConnectorIdpInitiatedAuthConfig)
    (w w1 : W) (lookup : Result Application) (uri : string) :
  h (findApplicationById (defaultApplicationId cfg)) w = (lookup, w1) →
  spec_resolvedRedirectUri cfg lookup = Some uri →
  uri ≠ "" →
  NoDup (authParameters cfg).*1 →
  ∃ (params : URLSearchParams),
    result (exec h (getIdpInitiatedSamlSsoSignInUrl reservedScopes URL URL_new issuer cfg) w)
    = construct_URL URL URL_new
        (issuer +:+ "/auth?" +:+ URLSearchParams_toString params)
    ∧ obj_get "scope" params
      = Some (withReservedScopes reservedScopes
                (match obj_get "scope" (authParameters cfg) with
                 | Some scope => str_split " " scope
                 | None => []
                 end))
    ∧ ∀ k, k ≠ "scope" →
        obj_get k params
        = match obj_get k (authParameters cfg) with
          | Some v => Some v
          | None =>
              obj_get k (standardEntries (defaultApplicationId cfg) uri (connectorId cfg))
          end.
Proof.
  intros Hh Hres Hne Hnd.
  exists (signInQuery reservedScopes cfg uri).
  split_and!.
  - by rewrite (exec_signInUrl_resolved reservedScopes URL URL_new h issuer cfg w lookup w1 uri).
  - unfold signInQuery, URLSearchParams_append, URLSearchParams_new.
    rewrite obj_get_snoc by apply queryRecord_no_scope. done.
  - intros k Hk. unfold signInQuery, URLSearchParams_append, URLSearchParams_new.
    rewrite obj_get_snoc by apply queryRecord_no_scope.
    unfold QueryKey.Scope. destruct (String.eqb_spec k "scope") as [|_]; [done|].
    rewrite obj_get_queryRecord by apply obj_rest_NoDup.
    rewrite obj_get_extraParams by done.
    by destruct (String.eqb_spec k "scope").
Qed.

(** X10.  The order of the query: when the keys of [authParameters] are
    distinct, ordinary names (none is an array index) and none is a
    standard key, the query is the five standard entries in the order of
    the literal, then the entries of [authParameters] other than [scope] in
    their order, then [scope]. *)
Theorem getIdpInitiatedSamlSsoSignInUrl_query_order
    (issuer : string) (cfg : SsoConnectorIdpInitiatedAuthConfig)
    (w w1 : W) (lookup : Result Application) (uri : string) :
  h (findApplicationById (defaultApplicationId cfg)) w = (lookup, w1) →
  spec_resolvedRedirectUri cfg lookup = Some uri →
  uri ≠ "" →
  NoDup (authParameters cfg).*1 →
  Forall (fun k => array_index k = None) (authParameters cfg).*1 →
  (∀ k, k ∈ ["client_id"; "redirect_uri"; "response_type"; "prompt"; "direct_sign_in"] →
        k ∉ (authParameters cfg).*1) →
  ∃ scope,
    result (exec h (getIdpInitiatedSamlSsoSignInUrl reservedScopes URL URL_new issuer cfg) w)
    = construct_URL URL URL_new
        (issuer +:+ "/auth?"
         +:+ URLSearchParams_toString
               (standardEntries (defaultApplicationId cfg) uri (connectorId cfg)
                ++ List.filter (fun p => negb (String.eqb (fst p) "scope"))
                     (authParameters cfg)
                ++ [("scope", scope)])).
Proof.
  intros Hh Hres Hne Hnd Hplain Hfree.
  exists (withReservedScopes reservedScopes
            (requestedScopes (obj_get "scope" (authParameters cfg)))).
  rewrite (exec_signInUrl_resolved reservedScopes URL URL_new h issuer cfg w lookup w1 uri)
    by done.
  unfold signInUrlText. do 3 f_equal.
  unfold signInQuery, URLSearchParams_append, URLSearchParams_new, queryRecord, obj_rest.
  set (extra := List.filter (fun p => negb (String.eqb (fst p) "scope"))
                  (authParameters cfg)).
  assert (Hextra_nd : NoDup extra.*1) by by apply filter_keys_NoDup.
  assert (Hextra_plain : Forall (fun k => array_index k = None) extra.*1).
  { apply Forall_forall. intros k [Hk _]%filter_keys_sub.
    by eapply Forall_forall in Hplain. }
  rewrite (obj_literal_plain extra) by done.
  rewrite obj_literal_plain.
  - by rewrite <- app_assoc.
  - rewrite fmap_app. apply NoDup_app. split_and!.
    + rewrite standardEntries_keys. apply standardKeys_NoDup.
    + intros k Hk [Hin _]%filter_keys_sub. rewrite standardEntries_keys in Hk.
      by apply (Hfree k).
    + done.
  - rewrite fmap_app. apply Forall_app. split; [|done].
    rewrite standardEntries_keys. by repeat constructor.
Qed.
End SignInCalls.

Lemma obj_insert_index_order n k v (o : JsObject) indices names :
  array_index k = Some n →
  o.*1 = indices ++ names →
  Forall (fun k => is_Some (array_index k)) indices →
  StronglySorted
    (fun k k' => ∀ n n', array_index k = Some n → array_index k' = Some n' → (n ≤ n')%N)
    indices →
  Forall (fun k => array_index k = None) names →
  ∃ indices',
    (obj_insert_index n k v o).*1 = indices' ++ names
    ∧ Forall (fun k => is_Some (array_index k)) indices'
    ∧ StronglySorted
        (fun k k' => ∀ n n', array_index k = Some n → array_index k' = Some n' → (n ≤ n')%N)
        indices'
    ∧ (∀ x, x ∈ indices' → x = k ∨ x ∈ indices).
Proof.
  intros Hk Hkeys Hidx Hsorted Hnames. revert o Hkeys.
  induction Hsorted as [|k0 indices Hsorted IH Hle]; intros o Hkeys.
  - exists [k]. split_and!.
    + rewrite app_nil_l in Hkeys. rewrite <- Hkeys in *.
      destruct o as [|[k' v'] o]; [done|].
      apply Forall_cons in Hnames as [Hk' _]. cbn in *. by rewrite Hk'.
    + repeat constructor. by rewrite Hk.
    + repeat constructor.
    + intros x ->%list_elem_of_singleton. by left.
  - destruct o as [|[k' v'] o]; [done|]. cbn in Hkeys. injection Hkeys as -> Hkeys.
    apply Forall_cons in Hidx as [[m Hm] Hidx]. cbn [obj_insert_index]. rewrite Hm.
    destruct (N.ltb_spec m n) as [Hlt|Hge].
    + destruct (IH Hidx o Hkeys) as (indices' & Heq & Hidx' & Hsorted' & Hsub).
      exists (k0 :: indices'). split_and!.
      * cbn. by rewrite Heq.
      * constructor; [by exists m|done].
      * constructor; [done|]. apply Forall_forall. intros x [->|Hx]%Hsub.
        -- intros n1 n2 Hn1 Hn2. rewrite Hm in Hn1. rewrite Hk in Hn2.
           injection Hn1 as <-. injection Hn2 as <-. lia.
        -- by eapply Forall_forall in Hle.
      * intros x [->|Hx]%elem_of_cons; [right; apply list_elem_of_here|].
        destruct (Hsub x Hx) as [->|Hin]; [by left|right; by apply list_elem_of_further].
    + exists (k :: k0 :: indices). split_and!.
      * cbn. by rewrite Hkeys.
      * constructor; [by rewrite Hk|]. constructor; [by exists m|done].
      * constructor; [by constructor|]. constructor.
        -- intros n1 n2 Hn1 Hn2. rewrite Hk in Hn1. rewrite Hm in Hn2.
           injection Hn1 as <-. injection Hn2 as <-. lia.
        -- apply Forall_forall. intros x Hx n1 n2 Hn1 Hn2.
           rewrite Hk in Hn1. injection Hn1 as <-.
           eapply Forall_forall in Hle; [|done].
           destruct (Forall_forall (fun k => is_Some (array_index k)) indices) as [Hall _].
           specialize (Hle m n2 Hm Hn2). lia.
      * intros x Hx. apply elem_of_cons in Hx as [->|Hx]; [by left|by right].
Qed.

Lemma obj_set_order k v (o : JsObject) :
  own_key_order o.*1 → own_key_order (obj_set k v o).*1.
Proof.
  intros (indices & names & Hkeys & Hidx & Hsorted & Hnames). unfold obj_set.
  destruct (obj_has k o).
  { rewrite obj_overwrite_keys. by exists indices, names. }
  destruct (array_index k) as [n|] eqn:Hk.
  - destruct (obj_insert_index_order n k v o indices names Hk Hkeys Hidx Hsorted Hnames)
      as (indices' & Heq & Hidx' & Hsorted' & _).
    by exists indices', names.
  - exists indices, (names ++ [k]). split_and!; [|done|done|].
    + rewrite fmap_app, Hkeys. cbn. by rewrite <- app_assoc.
    + apply Forall_app. split; [done|]. by repeat constructor.
Qed.

Lemma obj_fold_order (entries : list (string * string)) (o : JsObject) :
  own_key_order o.*1 →
  own_key_order (fold_left (fun o p => obj_set (fst p) (snd p) o) entries o).*1.
Proof.
  revert o. induction entries as [|[k v] entries IH]; intros o Ho; [done|].
  cbn [fold_left]. apply IH. by apply obj_set_order.
Qed.

Lemma obj_literal_order (entries : list (string * string)) :
  own_key_order (obj_literal entries).*1.
Proof.
  apply obj_fold_order. exists [], []. split_and!; by constructor.
Qed.

Lemma own_key_order_positions (keys : list string) :
  own_key_order keys →
  ∀ (i j : nat) k k', keys !! i = Some k → keys !! j = Some k' →
    (is_Some (array_index k) → array_index k' = None → (i < j)%nat)
    ∧ (∀ n n', array_index k = Some n → array_index k' = Some n' → (i < j)%nat → (n ≤ n')%N).
Proof.
  intros (indices & names & -> & Hidx & Hsorted & Hnames) i j k k' Hi Hj.
  assert (Hleft : ∀ i k, (indices ++ names) !! i = Some k → is_Some (array_index k) →
                         (i < length indices)%nat).
  { intros i0 k0 Hl [n Hn]. destruct (decide (i0 < length indices)%nat); [done|].
    rewrite lookup_app_r in Hl by lia.
    apply list_elem_of_lookup_2 in Hl. eapply Forall_forall in Hnames; [|done].
    cbn in Hnames. congruence. }
  assert (Hright : ∀ i k, (indices ++ names) !! i = Some k → array_index k = None →
                          (length indices ≤ i)%nat).
  { intros i0 k0 Hl Hn. destruct (decide (length indices ≤ i0)%nat); [done|].
    rewrite lookup_app_l in Hl by lia.
    apply list_elem_of_lookup_2 in Hl. eapply Forall_forall in Hidx; [|done].
    cbn in Hidx. rewrite Hn in Hidx. by destruct Hidx. }
  split.
  - intros Hk Hk'. specialize (Hleft i k Hi Hk). specialize (Hright j k' Hj Hk'). lia.
  - intros n n' Hn Hn' Hlt.
    assert (Hj' : (j < length indices)%nat) by (apply (Hleft j k' Hj); by exists n').
    rewrite lookup_app_l in Hi, Hj by lia.
    rewrite <- (take_drop j indices) in Hsorted.
    apply (StronglySorted_app_1_elem_of _ _ _ k k' Hsorted); [| |done|done].
    + apply list_elem_of_lookup. exists i. by rewrite lookup_take_lt.
    + apply list_elem_of_lookup. exists 0%nat. by rewrite lookup_drop, Nat.add_0_r.
Qed.

Section SignInOrder.
Variable reservedScopes : list string.
Variable URL : Type.
Variable URL_new : string → option URL.
Context {W : Type} (h : handler W).

(** X11.  Keys of [authParameters] that are array indices do not keep
    their place: in the issued query every such key stands before every
    other key, the standard ones included, and the index keys stand by
    ascending value. *)
Theorem getIdpInitiatedSamlSsoSignInUrl_index_keys_first
    (issuer : string) (cfg : SsoConnectorIdpInitiatedAuthConfig)
    (w w1 : W) (lookup : Result Application) (uri : string) :
  h (findApplicationById (defaultApplicationId cfg)) w = (lookup, w1) →
  spec_resolvedRedirectUri cfg lookup = Some uri →
  uri ≠ "" →
  ∃ (params : URLSearchParams),
    result (exec h (getIdpInitiatedSamlSsoSignInUrl reservedScopes URL URL_new issuer cfg) w)
    = construct_URL URL URL_new
        (issuer +:+ "/auth?" +:+ URLSearchParams_toString params)
    ∧ ∀ (i j : nat) k k',
        params.*1 !! i = Some k → params.*1 !! j = Some k' →
        (is_Some (array_index k) → array_index k' = None → (i < j)%nat)
        ∧ (∀ n n', array_index k = Some n → array_index k' = Some n' →
                   (i < j)%nat → (n ≤ n')%N).
Proof.
  intros Hh Hres Hne.
  exists (signInQuery reservedScopes cfg uri). split.
  - by rewrite (exec_signInUrl_resolved reservedScopes URL URL_new h issuer cfg w lookup w1 uri).
  - apply own_key_order_positions.
    unfold signInQuery, URLSearchParams_append, URLSearchParams_new, queryRecord.
    destruct (obj_literal_order
                (standardEntries (defaultApplicationId cfg) uri (connectorId cfg)
                 ++ obj_rest "scope" (authParameters cfg)))
      as (indices & names & Hkeys & Hidx & Hsorted & Hnames).
    exists indices, (names ++ ["scope"]). split_and!; [|done|done|].
    + rewrite fmap_app, Hkeys. cbn. by rewrite <- app_assoc.
    + apply Forall_app. split; [done|]. by repeat constructor.
Qed.
End SignInOrder.

(** * The further properties on the in-memory tenant *)

(** The one available connector among the two supported ones. *)
Lemma getAvailableSsoConnectors_sublist_witness :
  result (exec Sample.tenant (getAvailableSsoConnectors Sample.factories) Sample.world0)
  = inr [Sample.c2]
  ∧ ∃ count supported,
      result (exec Sample.tenant (getSsoConnectors Sample.factories None None) Sample.world0)
      = inr (count, supported)
      ∧ sublist [Sample.c2] supported
      ∧ (∀ c, c ∈ [Sample.c2] ↔
              c ∈ supported
              ∧ (∃ factory, Sample.factories !! providerName c = Some factory
                            ∧ configGuard factory (config c) = true)
              ∧ domains c ≠ []).
Proof.
  split; [reflexivity|].
  exact (getAvailableSsoConnectors_sublist_of_supported Sample.factories Sample.tenant
           Sample.world0 [Sample.c2] eq_refl).
Defined.

(** [c3], of an unregistered provider, is in the page the repository returns
    and is found by its id; neither operation shows it. *)
Lemma getSsoConnectors_agrees_witness :
  Sample.tenant (findAll (Some 3) None) Sample.world0
  = (inr (4, [Sample.c1; Sample.c2; Sample.c3]), Sample.world0)
  ∧ Sample.c3 ∈ [Sample.c1; Sample.c2; Sample.c3]
  ∧ Sample.tenant (findById "c3") Sample.world0 = (inr Sample.c3, Sample.world0)
  ∧ ((∃ supported,
         result (exec Sample.tenant (getSsoConnectors Sample.factories (Some 3) None)
                   Sample.world0) = inr (4, supported)
         ∧ Sample.c3 ∈ supported)
     ↔ result (exec Sample.tenant (getSsoConnectorById Sample.factories "c3") Sample.world0)
       = inr Sample.c3).
Proof.
  assert (Hin : Sample.c3 ∈ [Sample.c1; Sample.c2; Sample.c3]).
  { do 2 apply list_elem_of_further. apply list_elem_of_here. }
  split; [reflexivity|]. split; [exact Hin|]. split; [reflexivity|].
  exact (getSsoConnectors_agrees_with_getSsoConnectorById Sample.factories Sample.tenant
           (Some 3) None "c3" Sample.c3 Sample.world0 Sample.world0 Sample.world0
           Sample.world0 4 [Sample.c1; Sample.c2; Sample.c3] eq_refl Hin eq_refl).
Defined.

(** A record of an unregistered provider is reported as not found. *)
Lemma getSsoConnectorById_checks_provider_witness :
  Sample.tenant (findById "c3") Sample.world0 = (inr Sample.c3, Sample.world0)
  ∧ Sample.factories !! providerName Sample.c3 = None
  ∧ result (exec Sample.tenant (getSsoConnectorById Sample.factories "c3") Sample.world0)
    = inl (Request (mkRequestError "connector.not_found" (Some 404))).
Proof.
  split; [reflexivity|]. split; [reflexivity|].
  destruct (getSsoConnectorById_checks_provider_of_record Sample.factories Sample.tenant
              "c3" Sample.world0 Sample.world0 (inr Sample.c3) eq_refl)
    as (_ & _ & _ & unsupported & _).
  apply (unsupported Sample.c3); reflexivity.
Defined.

(** The sample repository rejects an id it has no record for; the error is
    the repository's, not [connector.not_found]. *)
Example getSsoConnectorById_passes_on_repository_error :
  Sample.tenant (findById "nobody") Sample.world0 = (inl Sample.not_exists, Sample.world0)
  ∧ result (exec Sample.tenant (getSsoConnectorById Sample.factories "nobody") Sample.world0)
    = inl Sample.not_exists.
Proof. split; reflexivity. Qed.

(** [c4] has a registered provider and a config the guard refuses: it is
    returned by id and never listed as available. *)
Lemma getSsoConnectorById_unavailable_witness :
  Sample.tenant (findById "c4") Sample.world0 = (inr Sample.c4, Sample.world0)
  ∧ Sample.factories !! providerName Sample.c4 = Some (mkFactory (String.prefix "issuer="))
  ∧ configGuard (mkFactory (String.prefix "issuer=")) (config Sample.c4) = false
  ∧ result (exec Sample.tenant (getSsoConnectorById Sample.factories "c4") Sample.world0)
    = inr Sample.c4
  ∧ trace (exec Sample.tenant (getSsoConnectorById Sample.factories "c4") Sample.world0)
    = [findById "c4"]
  ∧ world (exec Sample.tenant (getSsoConnectorById Sample.factories "c4") Sample.world0)
    = Sample.world0
  ∧ ∀ w' available,
      result (exec Sample.tenant (getAvailableSsoConnectors Sample.factories) w')
      = inr available →
      Sample.c4 ∉ available.
Proof.
  split; [reflexivity|]. split; [reflexivity|]. split; [reflexivity|].
  exact (getSsoConnectorById_returns_unavailable Sample.factories Sample.tenant
           "c4" Sample.c4 (mkFactory (String.prefix "issuer=")) Sample.world0 Sample.world0
           eq_refl eq_refl (or_introl eq_refl)).
Defined.

(** A third-party application is refused by both, after one lookup. *)
Lemma create_and_update_validate_alike_witness :
  let data := mkAuthConfig "c2" "a3" None [] in
  let set := mkPatch (Some "a3") None None in
  let created :=
    exec Sample.tenant (createSsoConnectorIdpInitiatedAuthConfig data) Sample.world0 in
  let updated :=
    exec Sample.tenant (updateSsoConnectorIdpInitiatedAuthConfig "c2" set) Sample.world0 in
  set_defaultApplicationId set = Some (defaultApplicationId data)
  ∧ defaultApplicationId data ≠ ""
  ∧ (insertIdpInitiatedAuthConfig data ∈ trace created
     ↔ updateIdpInitiatedAuthConfig set "c2" replace ∈ trace updated)
  ∧ (insertIdpInitiatedAuthConfig data ∉ trace created →
     result updated = result created
     ∧ trace updated = trace created
     ∧ world updated = world created
     ∧ ∃ e, result created = inl e).
Proof.
  cbn zeta. split; [reflexivity|]. split; [discriminate|].
  exact (create_and_update_validate_alike Sample.tenant
           (mkAuthConfig "c2" "a3" None []) "c2" (mkPatch (Some "a3") None None)
           Sample.world0 eq_refl ltac:(discriminate)).
Defined.

(** [a4] is a first-party traditional application that registers no redirect
    URI: the configuration is accepted, and no sign-in URL can be built. *)
Lemma accepted_configuration_witness :
  let data := mkAuthConfig "c2" "a4" None [] in
  Sample.tenant (findApplicationById "a4") Sample.world0 = (inr Sample.a4, Sample.world0)
  ∧ type Sample.a4 = Traditional
  ∧ isThirdParty Sample.a4 = false
  ∧ spec_resolvedRedirectUri data (inr Sample.a4) = None
  ∧ insertIdpInitiatedAuthConfig data
      ∈ trace (exec Sample.tenant (createSsoConnectorIdpInitiatedAuthConfig data)
                 Sample.world0)
  ∧ result (exec Sample.tenant
              (getIdpInitiatedSamlSsoSignInUrl Sample.reservedScopes string Sample.URL_new
                 "https://issuer.example" data) Sample.world0)
    = inl (Request (mkRequestError "oidc.invalid_redirect_uri" None)).
Proof.
  cbn zeta. split; [reflexivity|]. split; [reflexivity|]. split; [reflexivity|].
  split; [reflexivity|].
  exact (accepted_configuration_may_lack_redirect_uri Sample.reservedScopes string
           Sample.URL_new Sample.tenant "https://issuer.example"
           (mkAuthConfig "c2" "a4" None []) Sample.a4 Sample.world0 Sample.world0
           eq_refl eq_refl eq_refl (or_introl eq_refl)).
Defined.

(** A colliding key, a value with [&] and [=] in it, and no [scope]. *)
Lemma getIdpInitiatedSamlSsoSignInUrl_well_formed_witness :
  let cfg := mkAuthConfig "c1" "a1" None
               [("prompt", "consent"); ("state", "a=1&b=2")] in
  Sample.tenant (findApplicationById "a1") Sample.world0 = (inr Sample.a1, Sample.world0)
  ∧ spec_resolvedRedirectUri cfg (inr Sample.a1) = Some "https://app.example/cb"
  ∧ "https://app.example/cb" ≠ ""
  ∧ ∃ (params : URLSearchParams) (querystring : string),
      result (exec Sample.tenant
                (getIdpInitiatedSamlSsoSignInUrl Sample.reservedScopes string Sample.URL_new
                   "https://issuer.example" cfg) Sample.world0)
      = construct_URL string Sample.URL_new ("https://issuer.example" +:+ "/auth?" +:+ querystring)
      ∧ URLSearchParams_parse querystring = params
      ∧ NoDup params.*1
      ∧ (∀ k, k ∈ params.*1 ↔
              k ∈ ["client_id"; "redirect_uri"; "response_type"; "prompt";
                   "direct_sign_in"; "scope"]
              ∨ k ∈ (authParameters cfg).*1).
Proof.
  cbn zeta. split; [reflexivity|]. split; [reflexivity|]. split; [discriminate|].
  exact (getIdpInitiatedSamlSsoSignInUrl_query_well_formed Sample.reservedScopes string
           Sample.URL_new Sample.tenant "https://issuer.example"
           (mkAuthConfig "c1" "a1" None [("prompt", "consent"); ("state", "a=1&b=2")])
           Sample.world0 Sample.world0 (inr Sample.a1) "https://app.example/cb"
           eq_refl eq_refl ltac:(discriminate)).
Defined.

(** One standard key overridden, one new key, and a scope. *)
Lemma getIdpInitiatedSamlSsoSignInUrl_value_witness :
  let cfg := mkAuthConfig "c1" "a1" None
               [("prompt", "consent"); ("resource", "https://api.example");
                ("scope", "email")] in
  Sample.tenant (findApplicationById "a1") Sample.world0 = (inr Sample.a1, Sample.world0)
  ∧ spec_resolvedRedirectUri cfg (inr Sample.a1) = Some "https://app.example/cb"
  ∧ "https://app.example/cb" ≠ ""
  ∧ NoDup (authParameters cfg).*1
  ∧ ∃ (params : URLSearchParams),
      result (exec Sample.tenant
                (getIdpInitiatedSamlSsoSignInUrl Sample.reservedScopes string Sample.URL_new
                   "https://issuer.example" cfg) Sample.world0)
      = construct_URL string Sample.URL_new
          ("https://issuer.example" +:+ "/auth?" +:+ URLSearchParams_toString params)
      ∧ obj_get "scope" params
        = Some (withReservedScopes Sample.reservedScopes
                  (match obj_get "scope" (authParameters cfg) with
                   | Some scope => str_split " " scope
                   | None => []
                   end))
      ∧ ∀ k, k ≠ "scope" →
          obj_get k params
          = match obj_get k (authParameters cfg) with
            | Some v => Some v
            | None =>
                obj_get k (standardEntries (defaultApplicationId cfg)
                             "https://app.example/cb" (connectorId cfg))
            end.
Proof.
  cbn zeta.
  assert (Hnd : NoDup ["prompt"; "resource"; "scope"]).
  { apply NoDup_ListNoDup. repeat constructor; cbn; intuition discriminate. }
  split; [reflexivity|]. split; [reflexivity|]. split; [discriminate|].
  split; [exact Hnd|].
  exact (getIdpInitiatedSamlSsoSignInUrl_value_of_each_key Sample.reservedScopes string
           Sample.URL_new Sample.tenant "https://issuer.example"
           (mkAuthConfig "c1" "a1" None
              [("prompt", "consent"); ("resource", "https://api.example");
               ("scope", "email")])
           Sample.world0 Sample.world0 (inr Sample.a1) "https://app.example/cb"
           eq_refl eq_refl ltac:(discriminate) Hnd).
Defined.

(** A scope in the middle of [authParameters] moves to the end. *)
Lemma getIdpInitiatedSamlSsoSignInUrl_order_witness :
  let cfg := mkAuthConfig "c1" "a1" None
               [("resource", "https://api.example"); ("scope", "email");
                ("state", "x")] in
  Sample.tenant (findApplicationById "a1") Sample.world0 = (inr Sample.a1, Sample.world0)
  ∧ spec_resolvedRedirectUri cfg (inr Sample.a1) = Some "https://app.example/cb"
  ∧ "https://app.example/cb" ≠ ""
  ∧ NoDup (authParameters cfg).*1
  ∧ Forall (fun k => array_index k = None) (authParameters cfg).*1
  ∧ (∀ k, k ∈ ["client_id"; "redirect_uri"; "response_type"; "prompt"; "direct_sign_in"] →
          k ∉ (authParameters cfg).*1)
  ∧ ∃ scope,
      result (exec Sample.tenant
                (getIdpInitiatedSamlSsoSignInUrl Sample.reservedScopes string Sample.URL_new
                   "https://issuer.example" cfg) Sample.world0)
      = construct_URL string Sample.URL_new
          ("https://issuer.example" +:+ "/auth?"
           +:+ URLSearchParams_toString
                 (standardEntries (defaultApplicationId cfg) "https://app.example/cb"
                    (connectorId cfg)
                  ++ List.filter (fun p => negb (String.eqb (fst p) "scope"))
                       (authParameters cfg)
                  ++ [("scope", scope)])).
Proof.
  cbn zeta.
  assert (Hnd : NoDup ["resource"; "scope"; "state"]).
  { apply NoDup_ListNoDup. repeat constructor; cbn; intuition discriminate. }
  assert (Hplain : Forall (fun k => array_index k = None) ["resource"; "scope"; "state"]).
  { repeat constructor. }
  assert (Hfree : ∀ k : string,
            k ∈ ["client_id"; "redirect_uri"; "response_type"; "prompt"; "direct_sign_in"] →
            k ∉ ["resource"; "scope"; "state"]).
  { intros k Hk Hin. apply list_elem_of_In in Hk, Hin. cbn in Hk, Hin.
    intuition (subst; discriminate). }
  split; [reflexivity|]. split; [reflexivity|]. split; [discriminate|].
  split; [exact Hnd|]. split; [exact Hplain|]. split; [exact Hfree|].
  exact (getIdpInitiatedSamlSsoSignInUrl_query_order Sample.reservedScopes string
           Sample.URL_new Sample.tenant "https://issuer.example"
           (mkAuthConfig "c1" "a1" None
              [("resource", "https://api.example"); ("scope", "email"); ("state", "x")])
           Sample.world0 Sample.world0 (inr Sample.a1) "https://app.example/cb"
           eq_refl eq_refl ltac:(discriminate) Hnd Hplain Hfree).
Defined.

(** Two index keys given in descending order after an ordinary one. *)
Lemma getIdpInitiatedSamlSsoSignInUrl_index_keys_witness :
  let cfg := mkAuthConfig "c1" "a1" None [("state", "x"); ("10", "b"); ("2", "a")] in
  Sample.tenant (findApplicationById "a1") Sample.world0 = (inr Sample.a1, Sample.world0)
  ∧ spec_resolvedRedirectUri cfg (inr Sample.a1) = Some "https://app.example/cb"
  ∧ "https://app.example/cb" ≠ ""
  ∧ ∃ (params : URLSearchParams),
      result (exec Sample.tenant
                (getIdpInitiatedSamlSsoSignInUrl Sample.reservedScopes string Sample.URL_new
                   "https://issuer.example" cfg) Sample.world0)
      = construct_URL string Sample.URL_new
          ("https://issuer.example" +:+ "/auth?" +:+ URLSearchParams_toString params)
      ∧ ∀ (i j : nat) k k',
          params.*1 !! i = Some k → params.*1 !! j = Some k' →
          (is_Some (array_index k) → array_index k' = None → (i < j)%nat)
          ∧ (∀ n n', array_index k = Some n → array_index k' = Some n' →
                     (i < j)%nat → (n ≤ n')%N).
Proof.
  cbn zeta. split; [reflexivity|]. split; [reflexivity|]. split; [discriminate|].
  exact (getIdpInitiatedSamlSsoSignInUrl_index_keys_first Sample.reservedScopes string
           Sample.URL_new Sample.tenant "https://issuer.example"
           (mkAuthConfig "c1" "a1" None [("state", "x"); ("10", "b"); ("2", "a")])
           Sample.world0 Sample.world0 (inr Sample.a1) "https://app.example/cb"
           eq_refl eq_refl ltac:(discriminate)).
Defined.

(** The same configuration, run: the index keys lead the query. *)
Example getIdpInitiatedSamlSsoSignInUrl_index_keys_lead :
  result (exec Sample.tenant
            (getIdpInitiatedSamlSsoSignInUrl Sample.reservedScopes string Sample.URL_new
               "https://issuer.example"
               (mkAuthConfig "c1" "a1" None [("state", "x"); ("10", "b"); ("2", "a")]))
            Sample.world0)
  = inr ("https://issuer.example/auth?2=a&10=b&client_id=a1"
         +:+ "&redirect_uri=https%3A%2F%2Fapp.example%2Fcb"
         +:+ "&response_type=code&prompt=login&direct_sign_in=sso%3Ac1&state=x"
         +:+ "&scope=openid+offline_access+profile").
Proof. reflexivity. Qed.
